(** * FaderPort: a shallow embedding of [faderport.py]

    The driver is a Python class [FaderPort] over the [mido] MIDI
    transport, a table of 26 buttons, a table of dot-matrix glyphs and a
    handful of light animations.  The embedding below follows the module
    top to bottom:

    - Python values: [str] as [string] (ASCII), [int] as [Z], a [dict] as a
      [gmap], a [list]/[tuple] as a [list];
    - exceptions and attribute mutation: a state-and-error monad [M] whose
      state survives a raised exception, as attribute writes do in Python;
    - the abstract methods of the class: the type class [Hooks];
    - everything the program does to the outside world (messages sent,
      port resets, sleeps, prints): an append-only log of [Effect]s. *)

From Stdlib Require Import ZArith QArith Ascii String List Lia.
From stdpp Require Import base decidable option list gmap strings fin_maps.

Local Open Scope string_scope.
Local Open Scope list_scope.
Local Open Scope Z_scope.

(** ** Python strings (ASCII) *)

(** A [string] stands for a Python [str] made of ASCII characters
    ([isascii] below).  On such strings [upper], [lower] and [title] are
    Python's; on other characters Python applies the Unicode case
    mappings (['ſolo'.title()] is ['Solo']), which are not modelled, so
    statements about case are made for ASCII strings. *)

Module Str.

Definition is_upper (c : ascii) : bool :=
  let n := nat_of_ascii c in (65 <=? n)%nat && (n <=? 90)%nat.

Definition is_lower (c : ascii) : bool :=
  let n := nat_of_ascii c in (97 <=? n)%nat && (n <=? 122)%nat.

Definition is_cased (c : ascii) : bool := is_upper c || is_lower c.

Definition upper_char (c : ascii) : ascii :=
  if is_lower c then ascii_of_nat (nat_of_ascii c - 32) else c.

Definition lower_char (c : ascii) : ascii :=
  if is_upper c then ascii_of_nat (nat_of_ascii c + 32) else c.

(** [str.upper] and [str.lower]. *)
Fixpoint upper (s : string) : string :=
  match s with
  | EmptyString => EmptyString
  | String c r => String (upper_char c) (upper r)
  end.

Fixpoint lower (s : string) : string :=
  match s with
  | EmptyString => EmptyString
  | String c r => String (lower_char c) (lower r)
  end.

(** [str.title]: a character that follows a cased character is
    lowercased, any other character is titlecased (uppercased, in
    ASCII). *)
Fixpoint title_from (previous_is_cased : bool) (s : string) : string :=
  match s with
  | EmptyString => EmptyString
  | String c r =>
      String (if previous_is_cased then lower_char c else upper_char c)
             (title_from (is_cased c) r)
  end.

Definition title (s : string) : string := title_from false s.

(** [s.startswith(p)]. *)
Definition startswith (s p : string) : bool := String.prefix p s.

(** [s.isascii()]: every character is below 128. *)
Fixpoint isascii (s : string) : bool :=
  match s with
  | EmptyString => true
  | String c r => (nat_of_ascii c <? 128)%nat && isascii r
  end.

End Str.

(** ** Exceptions *)

Inductive Exn : Type :=
| KeyError
| IndexError
| ValueError
| AttributeError
| StopIteration
| OSError
| Exception (what : string).

Inductive Result (A : Type) : Type :=
| Ok (a : A)
| Raise (e : Exn).

Arguments Ok {A} a.
Arguments Raise {A} e.

(** ** Python containers *)

(** [{key(x): x for x in l}]: later elements overwrite earlier ones. *)
Definition dict_comprehension `{Countable K} {V : Type}
    (key : V -> K) (l : list V) : gmap K V :=
  foldl (fun d x => <[key x := x]> d) ∅ l.

(** [d[k]] raises [KeyError] on a missing key; [d.get(k, None)] does not. *)
Definition dict_getitem `{Countable K} {V : Type}
    (d : gmap K V) (k : K) : Result V :=
  match d !! k with
  | Some v => Ok v
  | None => Raise KeyError
  end.

Definition dict_get `{Countable K} {V : Type}
    (d : gmap K V) (k : K) : option V := d !! k.

Definition dict_contains `{Countable K} {V : Type}
    (d : gmap K V) (k : K) : bool := bool_decide (is_Some (d !! k)).

(** [l[i]] for a non-negative index: [IndexError] out of range. *)
Definition list_getitem {A : Type} (l : list A) (i : nat) : Result A :=
  match l !! i with
  | Some x => Ok x
  | None => Raise IndexError
  end.

(** ** The button registry *)

Record Button : Type := { name : string; press : Z }.

#[global] Instance Button_eq_dec : EqDecision Button.
Proof. solve_decision. Defined.

Definition BUTTONS : list Button :=
  [ {| name := "Solo"; press := 8 |};
    {| name := "Mute"; press := 16 |};
    {| name := "Arm"; press := 0 |};
    {| name := "Shift"; press := 70 |};
    {| name := "Bypass"; press := 3 |};
    {| name := "Touch"; press := 77 |};
    {| name := "Write"; press := 75 |};
    {| name := "Read"; press := 74 |};
    {| name := "Prev"; press := 46 |};
    {| name := "Knob"; press := 32 |};
    {| name := "Next"; press := 47 |};
    {| name := "Link"; press := 5 |};
    {| name := "Pan"; press := 42 |};
    {| name := "Channel"; press := 54 |};
    {| name := "Scroll"; press := 56 |};
    {| name := "Master"; press := 58 |};
    {| name := "Click"; press := 59 |};
    {| name := "Section"; press := 60 |};
    {| name := "Marker"; press := 61 |};
    {| name := "Loop"; press := 86 |};
    {| name := "Rewind"; press := 91 |};
    {| name := "Forward"; press := 92 |};
    {| name := "Stop"; press := 93 |};
    {| name := "Play"; press := 94 |};
    {| name := "Record"; press := 95 |};
    {| name := "Pedal"; press := 102 |} ].

Definition _button_from_name : gmap string Button :=
  dict_comprehension name BUTTONS.

Definition _button_from_press : gmap Z Button :=
  dict_comprehension press BUTTONS.

(** [button_from_name]: indexing, so a missing title-cased name raises. *)
Definition button_from_name (n : string) : Result Button :=
  dict_getitem _button_from_name (Str.title n).

(** [button_from_press]: [dict.get] with default [None]. *)
Definition button_from_press (p : Z) : Result (option Button) :=
  Ok (dict_get _button_from_press p).

(** Button indices that draw each hexadecimal digit. *)
Definition CHARACTERS : gmap string (list nat) :=
  list_to_map
    [ ("0", [0; 1; 2; 3; 4; 7; 11; 14; 15; 16; 17; 18]);
      ("1", [1; 2; 4; 6; 13; 15; 16; 17; 18]);
      ("2", [1; 2; 4; 7; 10; 12; 15; 16; 17; 18]);
      ("3", [1; 2; 4; 7; 8; 10; 11; 14; 16; 17]);
      ("4", [2; 5; 8; 10; 11; 12; 13; 14; 18]);
      ("5", [1; 2; 4; 7; 8; 13; 15; 16; 17; 18]);
      ("6", [0; 1; 2; 3; 4; 8; 10; 11; 14; 15; 16; 17; 18]);
      ("7", [0; 1; 2; 3; 7; 13; 16]);
      ("8", [0; 1; 2; 3; 5; 6; 12; 13; 15; 16; 17; 18]);
      ("9", [0; 1; 2; 3; 4; 7; 8; 10; 14; 15; 16; 17; 18]);
      ("A", [4; 5; 7; 10; 11; 12; 13; 14; 15; 18; 19; 23]);
      ("B", [4; 5; 6; 7; 10; 12; 13; 14; 15; 18; 20; 21; 22; 23]);
      ("C", [4; 5; 7; 10; 14; 15; 18; 20; 21; 22]);
      ("D", [4; 5; 6; 7; 10; 11; 14; 15; 18; 20; 21; 22; 23]);
      ("E", [4; 5; 6; 7; 13; 14; 15; 20; 21; 22; 23]);
      ("F", [4; 5; 6; 7; 13; 14; 15; 23]) ]%nat.


(** ** Iterators: [itertools.cycle], [next], [consume] *)

(** A [cycle] over a list: the saved elements and the position of the
    next one.  An empty cycle is exhausted at once. *)
Record cycle_iter (A : Type) : Type :=
  { saved : list A; position : nat }.

Arguments saved {A} _.
Arguments position {A} _.

#[global] Instance cycle_iter_eq_dec `{EqDecision A} : EqDecision (cycle_iter A).
Proof. solve_decision. Defined.

Definition cycle {A : Type} (l : list A) : cycle_iter A :=
  {| saved := l; position := 0 |}.

(** [next(it)]: the element under the cursor and the advanced cursor, or
    nothing when the iterator is exhausted. *)
Definition next {A : Type} (it : cycle_iter A) : option (A * cycle_iter A) :=
  match saved it !! position it with
  | Some x =>
      Some (x, {| saved := saved it;
                  position := (S (position it) mod length (saved it))%nat |})
  | None => None
  end.

(** [consume(iterator, n)] for an integer [n]: [next(islice(it, n, n), None)]
    draws [n] elements, or fewer if the iterator runs out. *)
Fixpoint consume {A : Type} (it : cycle_iter A) (n : nat) : cycle_iter A :=
  match n with
  | O => it
  | S n' =>
      match next it with
      | Some (_, it') => consume it' n'
      | None => it
      end
  end.

(** ** The transport: [mido] messages and ports *)

Inductive Message : Type :=
| pitchwheel (pitch : Z)
| note_on (note velocity : Z)
| control_change (control value : Z)
| other_message (type : string).

(** Arguments of [print]. *)
Inductive PyVal : Type :=
| PyStr (s : string)
| PyInt (z : Z)
| PyMsg (m : Message).

(** What the program does to the outside world, in order. *)
Inductive Effect : Type :=
| Sent (msg : Message)
| PortReset
| Slept (seconds : Q)
| Printed (args : list PyVal).

Inductive Callback : Type := bound_message_callback.

Record InPort : Type :=
  { in_name : option string; callback : option Callback; in_closed : bool }.

Record OutPort : Type :=
  { out_name : option string; out_closed : bool }.

(** The [mido] module functions [open] relies on; their behaviour is
    the backend's, so they are parameters of the development. *)
Class Backend : Type :=
  { get_input_names : list string;
    get_output_names : list string;
    open_input : option string -> Result InPort;
    open_output : option string -> Result OutPort }.

(** ** The controller object and its monad *)

(** The attributes of a [FaderPort] instance ([attrs] holds those a
    subclass adds), together with the log of effects so far. *)
Record FaderPort (U : Type) : Type := mkFaderPort
  { inport : option InPort;
    outport : option OutPort;
    _fader : Z;
    _msb : Z;
    attrs : U;
    effects : list Effect }.

Arguments mkFaderPort {U} _ _ _ _ _ _.
Arguments inport {U} _.
Arguments outport {U} _.
Arguments _fader {U} _.
Arguments _msb {U} _.
Arguments attrs {U} _.
Arguments effects {U} _.

(** A method body: it reads and writes the object, and either returns or
    raises.  The object as it was left is part of both outcomes. *)
Definition M (U A : Type) : Type := FaderPort U -> Result A * FaderPort U.

#[global] Instance M_ret (U : Type) : MRet (M U) :=
  fun A a s => (Ok a, s).

#[global] Instance M_bind (U : Type) : MBind (M U) :=
  fun A B f m s =>
    match m s with
    | (Ok a, s') => f a s'
    | (Raise e, s') => (Raise e, s')
    end.

Section Primitives.
Context {U : Type}.

Definition raise {A : Type} (e : Exn) : M U A := fun s => (Raise e, s).

Definition of_result {A : Type} (r : Result A) : M U A :=
  fun s => (r, s).

Definition gets {A : Type} (f : FaderPort U -> A) : M U A :=
  fun s => (Ok (f s), s).

Definition modify (f : FaderPort U -> FaderPort U) : M U unit :=
  fun s => (Ok tt, f s).

Definition set_inport (p : option InPort) (s : FaderPort U) : FaderPort U :=
  mkFaderPort p (outport s) (_fader s) (_msb s) (attrs s) (effects s).

Definition set_outport (p : option OutPort) (s : FaderPort U) : FaderPort U :=
  mkFaderPort (inport s) p (_fader s) (_msb s) (attrs s) (effects s).

Definition set_fader (v : Z) (s : FaderPort U) : FaderPort U :=
  mkFaderPort (inport s) (outport s) v (_msb s) (attrs s) (effects s).

Definition set_attrs (u : U) (s : FaderPort U) : FaderPort U :=
  mkFaderPort (inport s) (outport s) (_fader s) (_msb s) u (effects s).

Definition emit (e : Effect) (s : FaderPort U) : FaderPort U :=
  mkFaderPort (inport s) (outport s) (_fader s) (_msb s) (attrs s)
              (effects s ++ [e]).

(** [for x in l: body(x)] *)
Fixpoint for_each {A : Type} (l : list A) (body : A -> M U unit) : M U unit :=
  match l with
  | [] => mret tt
  | x :: l' => body x;; for_each l' body
  end.

(** [print(a, b, ...)]: the arguments, in order *)
Definition print (args : list PyVal) : M U unit :=
  modify (emit (Printed args)).

(** [time.sleep(d)]: a negative length is refused. *)
Definition sleep (d : Q) : M U unit :=
  if Qle_bool 0 d then modify (emit (Slept d)) else raise ValueError.

(** [self.outport.send(msg)]: no port yet, no attribute; a closed port
    refuses to send. *)
Definition outport_send (msg : Message) : M U unit :=
  p ← gets outport;
  match p with
  | None => raise AttributeError
  | Some port =>
      if out_closed port then raise ValueError
      else modify (emit (Sent msg))
  end.

(** [self.outport.reset()]: does nothing on a closed port. *)
Definition outport_reset : M U unit :=
  p ← gets outport;
  match p with
  | None => raise AttributeError
  | Some port =>
      if out_closed port then mret tt else modify (emit PortReset)
  end.

(** [self.outport.close()] *)
Definition outport_close : M U unit :=
  p ← gets outport;
  match p with
  | None => raise AttributeError
  | Some port =>
      modify (set_outport
                (Some {| out_name := out_name port; out_closed := true |}))
  end.

(** [self.inport.callback = cb] *)
Definition inport_set_callback (cb : option Callback) : M U unit :=
  p ← gets inport;
  match p with
  | None => raise AttributeError
  | Some port =>
      modify (set_inport
                (Some {| in_name := in_name port; callback := cb;
                         in_closed := in_closed port |}))
  end.

(** [self.inport.close()] *)
Definition inport_close : M U unit :=
  p ← gets inport;
  match p with
  | None => raise AttributeError
  | Some port =>
      modify (set_inport
                (Some {| in_name := in_name port; callback := callback port;
                         in_closed := true |}))
  end.

End Primitives.

(** ** Port discovery *)

Definition is_faderport (port_name : string) : bool :=
  Str.startswith (Str.lower port_name) "presonus fp2".

(** [ins[number]] when [0 <= number < len(ins)], else [None]. *)
Definition pick_port (names : list string) (number : Z) : option string :=
  let ports := List.filter is_faderport names in
  if (0 <=? number) && (number <? Z.of_nat (length ports))
  then ports !! Z.to_nat number
  else None.

Definition find_faderport_input_name `{Backend} (number : Z) : option string :=
  pick_port get_input_names number.

Definition find_faderport_output_name `{Backend} (number : Z) : option string :=
  pick_port get_output_names number.

(** ** The abstract class *)

(** The six abstract methods a concrete subclass supplies. *)
Class Hooks (U : Type) : Type :=
  { on_open : M U unit;
    on_close : M U unit;
    on_rotary : Z -> M U unit;
    on_button : Button -> bool -> M U unit;
    on_fader_touch : bool -> M U unit;
    on_fader : Z -> M U unit }.

(** [__init__], given the attributes the subclass starts with. *)
Definition __init__ {U : Type} (u : U) : FaderPort U :=
  mkFaderPort None None (-8192) 0 u [].

Section Lights.
Context {U : Type}.

(** The [fader] property: getter and setter. *)
Definition fader : M U Z := gets _fader.

Definition fader_setter (value : Z) : M U unit :=
  modify (set_fader (if value <? -8192 then -8192
                     else if 8191 <? value then 8191
                     else value));;
  v ← gets _fader;
  outport_send (pitchwheel v).

Definition light_on (button : Button) : M U unit :=
  outport_send (note_on (press button) 127).

Definition light_off (button : Button) : M U unit :=
  outport_send (note_on (press button) 0).

Definition all_off : M U unit := for_each BUTTONS light_off.

Definition all_on : M U unit := for_each BUTTONS light_on.

(** [snake(duration=0.03)] *)
Definition snake (duration : Q) : M U unit :=
  for_each BUTTONS (fun button => light_on button;; sleep duration);;
  for_each (reverse BUTTONS) (fun button => light_off button;; sleep duration).

(** [blink(interval=0.2, n=3)] *)
Definition blink (interval : Q) (n : Z) : M U unit :=
  for_each (seq 0 (Z.to_nat n)) (fun _ =>
    all_on;;
    sleep (interval / 2)%Q;;
    all_off;;
    sleep (interval / 2)%Q).

(** [char_on(c)] *)
Definition char_on (c : string) : M U unit :=
  if dict_contains CHARACTERS (Str.upper c) then
    indices ← of_result (dict_getitem CHARACTERS (Str.upper c));
    for_each indices (fun i =>
      button ← of_result (list_getitem BUTTONS i);
      light_on button)
  else mret tt.

(** [countdown(interval=0.5)] *)
Definition countdown (interval : Q) : M U unit :=
  for_each ["9"; "8"; "7"; "6"; "5"; "4"; "3"; "2"; "1"; "0"] (fun c =>
    char_on c;;
    sleep (interval * (66667 # 100000))%Q;;
    all_off;;
    sleep (interval * (33333 # 100000))%Q).

(** *** [chase] *)

(** The list literal [seq]: twelve name lookups, left to right. *)
Fixpoint lookup_all (names : list string) : Result (list Button) :=
  match names with
  | [] => Ok []
  | n :: rest =>
      match button_from_name n with
      | Ok b =>
          match lookup_all rest with
          | Ok bs => Ok (b :: bs)
          | Raise e => Raise e
          end
      | Raise e => Raise e
      end
  end.

Definition chase_seq : Result (list Button) :=
  lookup_all ["Solo"; "Mute"; "Arm"; "Shift"; "Read"; "Scroll"; "Marker";
              "Section"; "Click"; "Master"; "Link"; "Bypass"].

(** [num_lights if num_lights in [1, 2, 3, 4] else 2] *)
Definition chase_num_lights (num_lights : Z) : Z :=
  if bool_decide (num_lights ∈ [1; 2; 3; 4]) then num_lights else 2.

(** The cursors: one [cycle(seq)] per light, every cursor but the
    first advanced by [i * (len(seq) // num_lights)]. *)
Definition chase_its (sq : list Button) (num_lights : Z)
    : list (cycle_iter Button) :=
  let its := replicate (Z.to_nat num_lights) (cycle sq) in
  imap (fun i it =>
          if bool_decide (i ≠ 0%nat)
          then consume it
                 (Z.to_nat (Z.of_nat i * (Z.of_nat (length sq) / num_lights)))
          else it)
       its.

(** One pass of [for it in its: button = next(it); self.light_on(button)]:
    every cursor is advanced in place. *)
Fixpoint chase_tick (its : list (cycle_iter Button))
    : M U (list (cycle_iter Button)) :=
  match its with
  | [] => mret []
  | it :: rest =>
      match next it with
      | None => raise StopIteration
      | Some (button, it') =>
          light_on button;;
          rest' ← chase_tick rest;
          mret (it' :: rest')
      end
  end.

(** [for x in range(ticks): ...] *)
Fixpoint chase_loop (duration : Q) (ticks : nat)
    (its : list (cycle_iter Button)) : M U unit :=
  match ticks with
  | O => mret tt
  | S ticks' =>
      its' ← chase_tick its;
      sleep duration;;
      all_off;;
      chase_loop duration ticks' its'
  end.

(** Everything [chase] does before its loop: the sequence, the number
    of lights, the cursors. *)
Definition chase_setup (num_lights : Z) : Result (list (cycle_iter Button)) :=
  match chase_seq with
  | Ok sq => Ok (chase_its sq (chase_num_lights num_lights))
  | Raise e => Raise e
  end.

(** [chase(duration=0.08, num_lights=2, ticks=20)] *)
Definition chase (duration : Q) (num_lights : Z) (ticks : Z) : M U unit :=
  its ← of_result (chase_setup num_lights);
  chase_loop duration (Z.to_nat ticks) its.

End Lights.

Section Controller.
Context `{Backend} {U : Type} `{Hooks U}.

(** [_message_callback(msg)] *)
Definition _message_callback (msg : Message) : M U unit :=
  match msg with
  | pitchwheel pitch =>
      modify (set_fader pitch);;
      v ← gets _fader;
      on_fader v
  | note_on note velocity =>
      if note =? 104 then on_fader_touch (negb (velocity =? 0))
      else
        button ← of_result (button_from_press note);
        match button with
        | Some b => on_button b (negb (velocity =? 0))
        | None => print [PyStr "Button not found:"; PyInt note]
        end
  | control_change control value =>
      if control =? 16 then on_rotary (if 64 <? value then -1 else 1)
      else print [PyStr "Unhandled:"; PyMsg msg]
  | other_message _ => print [PyStr "Unhandled:"; PyMsg msg]
  end.

(** [open(number=0)] *)
Definition open (number : Z) : M U unit :=
  i ← of_result (open_input (find_faderport_input_name number));
  modify (set_inport (Some i));;
  o ← of_result (open_output (find_faderport_output_name number));
  modify (set_outport (Some o));;
  sleep (1 # 100);;
  inport_set_callback (Some bound_message_callback);;
  on_open.

(** [close()] *)
Definition close : M U unit :=
  on_close;;
  inport_set_callback None;;
  fader_setter (-8192);;
  all_off;;
  outport_reset;;
  inport_close;;
  outport_close.

(** The context manager: [__enter__] opens port 0, [__exit__] closes. *)
Definition __enter__ : M U unit := open 0.

Definition __exit__ : M U unit := close.

End Controller.

(** ** The demonstration subclass [TestFaderPort] *)

Record TestAttrs : Type :=
  { _shift : bool; cycling : bool; should_exit : bool }.

Module TestFaderPort.

Definition init : FaderPort TestAttrs :=
  __init__ {| _shift := false; cycling := false; should_exit := false |}.

Definition shift : M TestAttrs bool := gets (fun s => _shift (attrs s)).

Definition test_on_open : M TestAttrs unit :=
  print [PyStr "FaderPort opened!!"].

Definition test_on_close : M TestAttrs unit :=
  print [PyStr "FaderPort closing..."].

Definition test_on_rotary (direction : Z) : M TestAttrs unit :=
  print [PyStr ("Pan turned " +:+
                (if 0 <? direction then "clockwise" else "anti-clockwise")
                +:+ ".")];;
  sh ← shift;
  if sh : bool then
    v ← fader;
    fader_setter (v + direction * 32 * 10)
  else mret tt.

Definition test_on_button (button : Button) (state : bool) : M TestAttrs unit :=
  print [PyStr ("Button: " +:+ name button +:+ " " +:+
                (if state then "pressed" else "released"))];;
  (if bool_decide (name button = "Shift") then
     modify (fun s => set_attrs {| _shift := negb (_shift (attrs s));
                                   cycling := cycling (attrs s);
                                   should_exit := should_exit (attrs s) |} s)
   else mret tt);;
  (if bool_decide (name button = "Mute") && negb state then
     modify (fun s => set_attrs {| _shift := _shift (attrs s);
                                   cycling := cycling (attrs s);
                                   should_exit := true |} s)
   else mret tt);;
  cyc ← gets (fun s => cycling (attrs s));
  if cyc : bool then mret tt
  else if state then light_on button else light_off button.

Definition test_on_fader_touch (state : bool) : M TestAttrs unit :=
  print [PyStr ("Fader: " +:+ (if state then "touched" else "released"))].

(** [print(f"Fader: {self.fader}")]: the text and the number are kept
    apart in the log; the printed line is the same. *)
Definition test_on_fader (value : Z) : M TestAttrs unit :=
  v ← fader;
  print [PyStr "Fader:"; PyInt v].

#[global] Instance hooks : Hooks TestAttrs :=
  { on_open := test_on_open;
    on_close := test_on_close;
    on_rotary := test_on_rotary;
    on_button := test_on_button;
    on_fader_touch := test_on_fader_touch;
    on_fader := test_on_fader }.

End TestFaderPort.

(** * Vocabulary of the statements *)

(** The object [s] after the effects [es] have happened, nothing else
    changed. *)
Definition extend {U : Type} (s : FaderPort U) (es : list Effect) : FaderPort U :=
  mkFaderPort (inport s) (outport s) (_fader s) (_msb s) (attrs s)
              (effects s ++ es).

(** The output port exists and is open: [send] goes through. *)
Definition can_send {U : Type} (s : FaderPort U) : Prop :=
  exists port, outport s = Some port /\ out_closed port = false.

Definition light_on_cmds (buttons : list Button) : list Effect :=
  (fun b => Sent (note_on (press b) 127)) <$> buttons.

Definition light_off_cmds (buttons : list Button) : list Effect :=
  (fun b => Sent (note_on (press b) 0)) <$> buttons.

(** The characters [char_on] is documented for. *)
Definition hex_digits : list ascii :=
  list_ascii_of_string "0123456789abcdefABCDEF".

(** What one tick of [chase] does to the world when it lights [lit]:
    the on-phase, the pause, then every light off. *)
Definition tick_effects (d : Q) (lit : list Button) : list Effect :=
  light_on_cmds lit ++ [Slept d] ++ light_off_cmds BUTTONS.

(** The pure content of one pass over the cursors: the buttons under
    them and the cursors moved on. *)
Fixpoint advance (its : list (cycle_iter Button))
    : option (list Button * list (cycle_iter Button)) :=
  match its with
  | [] => Some ([], [])
  | it :: rest =>
      match next it, advance rest with
      | Some (b, it'), Some (bs, rest') => Some (b :: bs, it' :: rest')
      | _, _ => None
      end
  end.

(** The cursor configurations met in the first [k] ticks. *)
Fixpoint orbit (k : nat) (its : list (cycle_iter Button))
    : list (list (cycle_iter Button)) :=
  match k with
  | O => []
  | S k' =>
      its :: match advance its with
             | Some (_, its') => orbit k' its'
             | None => []
             end
  end.

(** From [its], a tick lights [n] buttons with pairwise distinct codes
    and leaves the cursors in a configuration of [known]. *)
Definition steady (n : nat) (known : list (list (cycle_iter Button)))
    (its : list (cycle_iter Button)) : bool :=
  match advance its with
  | Some (bs, its') =>
      bool_decide (length bs = n) &&
      bool_decide (NoDup (press <$> bs)) &&
      bool_decide (its' ∈ known)
  | None => false
  end.

(** *** Teardown *)

(** What [close] is expected to leave behind, [before] being the object
    when the teardown starts: callback gone, both ports closed, the
    fader cached at its minimum and that value sent, a light-off command
    for each button, the output port reset. *)
Definition torn_down {U : Type} (before after : FaderPort U) : Prop :=
  (exists ip, inport after = Some ip /\ callback ip = None /\
              in_closed ip = true) /\
  (exists op, outport after = Some op /\ out_closed op = true) /\
  _fader after = -8192 /\
  exists es, effects after = effects before ++ es /\
             Sent (pitchwheel (-8192)) ∈ es /\
             (forall c, c ∈ BUTTONS -> Sent (note_on (press c) 0) ∈ es) /\
             PortReset ∈ es.

(** *** The fader range *)

(** A pitchwheel message as [mido] accepts it: a signed 14-bit pitch. *)
Definition well_formed (msg : Message) : Prop :=
  match msg with
  | pitchwheel p => -8192 <= p <= 8191
  | _ => True
  end.

Definition effect_in_range (e : Effect) : Prop :=
  match e with
  | Sent msg => well_formed msg
  | _ => True
  end.

(** The cached fader is in range and so is every fader value sent. *)
Definition fader_in_range {U : Type} (s : FaderPort U) : Prop :=
  -8192 <= _fader s <= 8191 /\ Forall effect_in_range (effects s).

Definition keeps_fader_in_range {U A : Type} (m : M U A) : Prop :=
  forall s, fader_in_range s -> fader_in_range (snd (m s)).

(** A subclass that goes through the [fader] property, as
    [TestFaderPort] does, rather than writing [_fader] itself. *)
Definition hooks_keep_fader_in_range {U : Type} (h : Hooks U) : Prop :=
  keeps_fader_in_range on_open /\
  keeps_fader_in_range on_close /\
  (forall d, keeps_fader_in_range (on_rotary d)) /\
  (forall b st, keeps_fader_in_range (on_button b st)) /\
  (forall st, keeps_fader_in_range (on_fader_touch st)) /\
  (forall v, keeps_fader_in_range (on_fader v)).

(** The operations of a [FaderPort]: its public methods and the
    delivery of an inbound message to its callback. *)
Inductive Call : Type :=
| CallOpen (number : Z)
| CallClose
| CallFaderSet (value : Z)
| CallInbound (msg : Message)
| CallLightOn (button : Button)
| CallLightOff (button : Button)
| CallAllOff
| CallAllOn
| CallSnake (duration : Q)
| CallBlink (interval : Q) (n : Z)
| CallCharOn (c : string)
| CallCountdown (interval : Q)
| CallChase (duration : Q) (num_lights ticks : Z).

Definition perform `{Backend} {U : Type} `{Hooks U} (c : Call) : M U unit :=
  match c with
  | CallOpen number => open number
  | CallClose => close
  | CallFaderSet value => fader_setter value
  | CallInbound msg => _message_callback msg
  | CallLightOn button => light_on button
  | CallLightOff button => light_off button
  | CallAllOff => all_off
  | CallAllOn => all_on
  | CallSnake duration => snake duration
  | CallBlink interval n => blink interval n
  | CallCharOn c => char_on c
  | CallCountdown interval => countdown interval
  | CallChase duration num_lights ticks => chase duration num_lights ticks
  end.

(** The inbound messages are the transport's: well-formed. *)
Definition admissible (c : Call) : Prop :=
  match c with
  | CallInbound msg => well_formed msg
  | _ => True
  end.

(** The objects a program can bring about: a fresh one, and whatever a
    call leaves, returning or raising. *)
Inductive reachable `{Backend} {U : Type} `{Hooks U} (u : U)
    : FaderPort U -> Prop :=
| reachable_init : reachable u (__init__ u)
| reachable_call (c : Call) (s : FaderPort U) :
    reachable u s -> admissible c -> reachable u (snd (perform c s)).

(** *** Sample instances *)

Definition demo_backend : Backend :=
  {| get_input_names := ["Midi Through Port-0"; "PreSonus FP2 MIDI 1"];
     get_output_names := ["Midi Through Port-0"; "PreSonus FP2 MIDI 1"];
     open_input := fun n =>
       Ok {| in_name := n; callback := None; in_closed := false |};
     open_output := fun n =>
       Ok {| out_name := n; out_closed := false |} |}.

(** A [TestFaderPort] after [open()]. *)
Definition demo_opened : FaderPort TestAttrs :=
  snd (@open demo_backend TestAttrs TestFaderPort.hooks 0 TestFaderPort.init).

(** A subclass whose [on_close] raises. *)
Definition failing_hooks : Hooks unit :=
  {| on_open := mret tt;
     on_close := raise (Exception "on_close failed");
     on_rotary := fun _ => mret tt;
     on_button := fun _ _ => mret tt;
     on_fader_touch := fun _ => mret tt;
     on_fader := fun _ => mret tt |}.

Definition failing_opened : FaderPort unit :=
  snd (@open demo_backend unit failing_hooks 0 (__init__ tt)).

(** *** Reading a log of effects *)

(** The velocity of the last note-on message sent for [code], if any:
    127 when the last command for that button was light-on, 0 when it
    was light-off. *)
Definition last_velocity (code : Z) (es : list Effect) : option Z :=
  foldl (fun acc e =>
           match e with
           | Sent (note_on n v) => if n =? code then Some v else acc
           | _ => acc
           end)
        None es.

(** The lengths of the sleeps, in order. *)
Definition sleeps (es : list Effect) : list Q :=
  omap (fun e => match e with Slept d => Some d | _ => None end) es.

(** A light command or a pause: the only effects of the light methods. *)
Definition light_effect (e : Effect) : Prop :=
  match e with
  | Sent (note_on _ v) => v = 0 \/ v = 127
  | Slept _ => True
  | _ => False
  end.

(** Whatever [m] does, returning or raising, the object is as before
    but for light commands and pauses added to the log. *)
Definition only_lights {U A : Type} (m : M U A) : Prop :=
  forall s, exists es, snd (m s) = extend s es /\ Forall light_effect es.

(** The calls that only drive the lights. *)
Definition lighting (c : Call) : Prop :=
  match c with
  | CallLightOn _ | CallLightOff _ | CallAllOff | CallAllOn | CallSnake _
  | CallBlink _ _ | CallCharOn _ | CallCountdown _ | CallChase _ _ _ => True
  | _ => False
  end.

(** The buttons [char_on] lights for [c]: those at the indices of its
    glyph, none when it has no glyph. *)
Definition glyph_buttons (c : string) : list Button :=
  match CHARACTERS !! Str.upper c with
  | Some indices => omap (fun i => BUTTONS !! i) indices
  | None => []
  end.

(** The effects of the methods, as the theorems below state them. *)
Definition snake_effects (d : Q) : list Effect :=
  concat ((fun b => [Sent (note_on (press b) 127); Slept d]) <$> BUTTONS) ++
  concat ((fun b => [Sent (note_on (press b) 0); Slept d]) <$> reverse BUTTONS).

Definition blink_effects (interval : Q) : list Effect :=
  light_on_cmds BUTTONS ++ [Slept (interval / 2)%Q] ++
  light_off_cmds BUTTONS ++ [Slept (interval / 2)%Q].

Definition countdown_effects (interval : Q) (c : string) : list Effect :=
  light_on_cmds (glyph_buttons c) ++
  [Slept (interval * (66667 # 100000))%Q] ++
  light_off_cmds BUTTONS ++
  [Slept (interval * (33333 # 100000))%Q].

(** * Properties *)

(** ** Strings *)

Module StrFacts.
Import Str.

Lemma lower_char_idem (c : ascii) : lower_char (lower_char c) = lower_char c.
Proof. destruct c as [[] [] [] [] [] [] [] []]; reflexivity. Qed.

Lemma lower_upper_char (c : ascii) : lower_char (upper_char c) = lower_char c.
Proof. destruct c as [[] [] [] [] [] [] [] []]; reflexivity. Qed.

(** Title-casing only changes the case of letters. *)
Lemma lower_title_from (b : bool) (s : string) :
  lower (title_from b s) = lower s.
Proof.
  revert b; induction s as [|c r IH]; intros b; simpl; [reflexivity|].
  rewrite IH. f_equal.
  destruct b; [apply lower_char_idem | apply lower_upper_char].
Qed.

Lemma lower_title (s : string) : lower (title s) = lower s.
Proof. apply lower_title_from. Qed.

End StrFacts.

(** ** Dictionaries built by comprehension *)

Section DictFacts.
Context `{Countable K} {V : Type} (key : V -> K).

Lemma foldl_insert_lookup_Some (l : list V) (d : gmap K V) (k : K) (x : V) :
  foldl (fun d x => <[key x := x]> d) d l !! k = Some x ->
  (x ∈ l /\ key x = k) \/ d !! k = Some x.
Proof.
  revert d; induction l as [|y l IH]; intros d Hl; simpl in Hl.
  - right; exact Hl.
  - destruct (IH _ Hl) as [[Hin Hk] | Hd].
    + left; split; [right; exact Hin | exact Hk].
    + destruct (decide (key y = k)) as [Heq | Hne].
      * rewrite Heq, lookup_insert_eq in Hd.
        injection Hd as <-. left; split; [left | exact Heq].
      * rewrite lookup_insert_ne in Hd by exact Hne. right; exact Hd.
Qed.

(** Whatever a comprehension holds under [k] is an element of the
    list whose key is [k]. *)
Lemma dict_comprehension_Some (l : list V) (k : K) (x : V) :
  dict_comprehension key l !! k = Some x -> x ∈ l /\ key x = k.
Proof.
  intros Hl. destruct (foldl_insert_lookup_Some _ _ _ _ Hl) as [?|Hd];
    [assumption | rewrite lookup_empty in Hd; discriminate].
Qed.

Lemma dict_comprehension_None (l : list V) (k : K) :
  (forall x, x ∈ l -> key x <> k) -> dict_comprehension key l !! k = None.
Proof.
  intros Hno. destruct (dict_comprehension key l !! k) as [x|] eqn:E;
    [|reflexivity].
  apply dict_comprehension_Some in E as [Hin Hk]. destruct (Hno x Hin Hk).
Qed.

End DictFacts.

(** ** The registry *)

Lemma BUTTONS_length : length BUTTONS = 26%nat.
Proof. reflexivity. Qed.

Lemma BUTTONS_press_NoDup : NoDup (press <$> BUTTONS).
Proof. apply (bool_decide_unpack _). vm_compute. exact I. Qed.

Lemma BUTTONS_name_NoDup : NoDup (name <$> BUTTONS).
Proof. apply (bool_decide_unpack _). vm_compute. exact I. Qed.

Lemma BUTTONS_lookups :
  Forall (fun c => button_from_press (press c) = Ok (Some c) /\
                   button_from_name (name c) = Ok c) BUTTONS.
Proof. unfold BUTTONS. repeat constructor. Qed.

(** Two list elements with the same key are the same element, when keys
    do not repeat. *)
Lemma NoDup_fmap_eq {A B : Type} (f : A -> B) (l : list A) (x y : A) :
  NoDup (f <$> l) -> x ∈ l -> y ∈ l -> f x = f y -> x = y.
Proof.
  intros Hnd Hx Hy Hf.
  apply list_elem_of_lookup in Hx as [i Hi], Hy as [j Hj].
  assert (i = j) as ->.
  { eapply NoDup_lookup; [exact Hnd | |];
      rewrite list_lookup_fmap; [rewrite Hi | rewrite Hj]; simpl;
      [reflexivity | f_equal; symmetry; exact Hf]. }
  congruence.
Qed.

Lemma button_from_press_in (c : Button) :
  c ∈ BUTTONS -> button_from_press (press c) = Ok (Some c).
Proof.
  intros Hin. exact (proj1 (proj1 (Forall_forall _ _) BUTTONS_lookups c Hin)).
Qed.

Lemma button_from_name_in (c : Button) :
  c ∈ BUTTONS -> button_from_name (name c) = Ok c.
Proof.
  intros Hin. exact (proj2 (proj1 (Forall_forall _ _) BUTTONS_lookups c Hin)).
Qed.

Lemma button_from_press_unknown (p : Z) :
  (forall c, c ∈ BUTTONS -> press c <> p) -> button_from_press p = Ok None.
Proof.
  intros Hno. unfold button_from_press, dict_get. f_equal.
  apply dict_comprehension_None. exact Hno.
Qed.

(** C6. Every button of [BUTTONS] is what [button_from_press] returns for
    its code and what [button_from_name] returns for its name, and no
    other button of the list shares its code or its name: the two tables
    are in bijection with the list. *)
Theorem registry_round_trip (c : Button) :
  c ∈ BUTTONS ->
  button_from_press (press c) = Ok (Some c) /\
  button_from_name (name c) = Ok c /\
  (forall c', c' ∈ BUTTONS -> press c' = press c \/ name c' = name c -> c' = c).
Proof.
  intros Hin.
  split; [exact (button_from_press_in c Hin) |].
  split; [exact (button_from_name_in c Hin) |].
  intros c' Hin' [Heq | Heq].
  - exact (NoDup_fmap_eq press BUTTONS c' c BUTTONS_press_NoDup Hin' Hin Heq).
  - exact (NoDup_fmap_eq name BUTTONS c' c BUTTONS_name_NoDup Hin' Hin Heq).
Qed.

Lemma registry_round_trip_witness :
  {| name := "Mute"; press := 16 |} ∈ BUTTONS /\
  button_from_press 16 = Ok (Some {| name := "Mute"; press := 16 |}) /\
  button_from_name "Mute" = Ok {| name := "Mute"; press := 16 |}.
Proof.
  assert (Hin : {| name := "Mute"; press := 16 |} ∈ BUTTONS)
    by (apply (bool_decide_unpack _); vm_compute; exact I).
  split; [exact Hin |].
  destruct (registry_round_trip _ Hin) as (Hp & Hn & _).
  split; [exact Hp | exact Hn].
Defined.

(** The tables hold nothing but the buttons of the list. *)
Lemma button_from_press_Some (p : Z) (c : Button) :
  button_from_press p = Ok (Some c) -> c ∈ BUTTONS /\ press c = p.
Proof.
  unfold button_from_press, dict_get. intros [= Hl].
  exact (dict_comprehension_Some press BUTTONS p c Hl).
Qed.

Lemma button_from_name_Ok (n : string) (c : Button) :
  button_from_name n = Ok c -> c ∈ BUTTONS /\ name c = Str.title n.
Proof.
  unfold button_from_name, dict_getitem.
  destruct (_button_from_name !! Str.title n) as [b|] eqn:E; [|discriminate].
  intros [= <-]. exact (dict_comprehension_Some name BUTTONS _ b E).
Qed.

(** C7. [button_from_press] returns normally on every code, with [None]
    for a code no button has; [button_from_name] raises [KeyError] for
    an ASCII name that matches no button name up to case; and a
    character with no glyph makes [char_on] return without doing
    anything, so the name lookup is the one lookup that fails on its
    caller. *)
Theorem lookup_failure_modes :
  (forall p : Z, exists r, button_from_press p = Ok r) /\
  (forall p : Z, (forall c, c ∈ BUTTONS -> press c <> p) ->
                 button_from_press p = Ok None) /\
  (forall n : string,
      Str.isascii n = true ->
      (forall c, c ∈ BUTTONS -> Str.lower (name c) <> Str.lower n) ->
      button_from_name n = Raise KeyError) /\
  (forall (U : Type) (c : string) (s : FaderPort U),
      CHARACTERS !! Str.upper c = None -> char_on c s = (Ok tt, s)).
Proof.
  split; [|split; [|split]].
  - intros p. eexists. reflexivity.
  - exact button_from_press_unknown.
  - intros n _ Hno. unfold button_from_name, dict_getitem.
    destruct (_button_from_name !! Str.title n) as [b|] eqn:E; [|reflexivity].
    apply (dict_comprehension_Some name BUTTONS) in E as [Hin Hname].
    destruct (Hno b Hin). rewrite Hname. apply StrFacts.lower_title.
  - intros U c s Hc. unfold char_on, dict_contains.
    rewrite bool_decide_eq_false_2; [reflexivity|].
    rewrite Hc. intros [x Hx]; discriminate.
Qed.

Lemma lookup_failure_modes_witness :
  button_from_press 104 = Ok None /\
  Str.isascii "Rec Arm" = true /\
  button_from_name "Rec Arm" = Raise KeyError.
Proof.
  destruct lookup_failure_modes as (_ & Hp & Hn & _). split; [|split].
  - apply Hp. apply Forall_forall. unfold BUTTONS.
    repeat constructor; discriminate.
  - reflexivity.
  - apply Hn; [reflexivity|]. apply Forall_forall. unfold BUTTONS.
    repeat constructor; discriminate.
Defined.

(** ** Running method bodies *)

Section MonadFacts.
Context {U : Type}.
Implicit Types s : FaderPort U.

Lemma bind_run {A B : Type} (m : M U A) (f : A -> M U B) s :
  (m ≫= f) s =
  match m s with
  | (Ok a, s') => f a s'
  | (Raise e, s') => (Raise e, s')
  end.
Proof. reflexivity. Qed.

Lemma bind_ok {A B : Type} (m : M U A) (f : A -> M U B) s a s' :
  m s = (Ok a, s') -> (m ≫= f) s = f a s'.
Proof. intros E. rewrite bind_run, E. reflexivity. Qed.

Lemma bind_raise {A B : Type} (m : M U A) (f : A -> M U B) s e s' :
  m s = (Raise e, s') -> (m ≫= f) s = (Raise e, s').
Proof. intros E. rewrite bind_run, E. reflexivity. Qed.

Lemma emit_extend (e : Effect) s : emit e s = extend s [e].
Proof. reflexivity. Qed.

Lemma extend_nil s : extend s [] = s.
Proof. destruct s; unfold extend; simpl. rewrite app_nil_r. reflexivity. Qed.

Lemma extend_extend s (es es' : list Effect) :
  extend (extend s es) es' = extend s (es ++ es').
Proof. unfold extend; simpl. rewrite app_assoc. reflexivity. Qed.

Lemma can_send_extend s (es : list Effect) : can_send s -> can_send (extend s es).
Proof. intros H; exact H. Qed.

Lemma outport_send_open (msg : Message) s :
  can_send s -> outport_send msg s = (Ok tt, extend s [Sent msg]).
Proof.
  intros (port & Hp & Hopen). unfold outport_send.
  rewrite bind_run. unfold gets. rewrite Hp, Hopen. reflexivity.
Qed.

(** Without an open output port a send raises and changes nothing. *)
Lemma outport_send_stuck (msg : Message) s :
  ~ can_send s ->
  outport_send msg s = (Raise AttributeError, s) \/
  outport_send msg s = (Raise ValueError, s).
Proof.
  intros Hno. unfold outport_send. rewrite bind_run. unfold gets.
  destruct (outport s) as [port|] eqn:Hp; [|left; reflexivity].
  destruct (out_closed port) eqn:Hc; [right; reflexivity|].
  destruct Hno. exists port. split; [exact Hp | exact Hc].
Qed.

(** A loop of sends on an open port appends one message per element. *)
Lemma for_each_send {A : Type} (f : A -> Message) (l : list A) s :
  can_send s ->
  for_each l (fun x => outport_send (f x)) s =
  (Ok tt, extend s ((fun x => Sent (f x)) <$> l)).
Proof.
  revert s; induction l as [|x l IH]; intros s Hs; simpl.
  - rewrite extend_nil. reflexivity.
  - erewrite bind_ok by (apply outport_send_open; exact Hs).
    rewrite IH by (apply can_send_extend; exact Hs).
    rewrite extend_extend. reflexivity.
Qed.

Lemma all_off_open s :
  can_send s -> all_off s = (Ok tt, extend s (light_off_cmds BUTTONS)).
Proof. intros Hs. exact (for_each_send _ BUTTONS s Hs). Qed.

Lemma all_on_open s :
  can_send s -> all_on s = (Ok tt, extend s (light_on_cmds BUTTONS)).
Proof. intros Hs. exact (for_each_send _ BUTTONS s Hs). Qed.

End MonadFacts.

(** ** The fader property *)

Lemma clamp_as_min_max (v : Z) :
  (if v <? -8192 then -8192 else if 8191 <? v then 8191 else v) =
  Z.max (-8192) (Z.min 8191 v).
Proof.
  destruct (Z.ltb_spec v (-8192)); [lia|].
  destruct (Z.ltb_spec 8191 v); lia.
Qed.

(** The cache is written before the message goes out, so it holds the
    clamped value whatever becomes of the send. *)
Lemma fader_setter_cache {U : Type} (v : Z) (s : FaderPort U) :
  _fader (snd (fader_setter v s)) = Z.max (-8192) (Z.min 8191 v).
Proof.
  rewrite <- clamp_as_min_max.
  destruct s as [ip [[nm []]|] f m u es]; reflexivity.
Qed.

(** C3. On an open output port, writing [v] to [fader] caches [v]
    clamped into [-8192, 8191] and sends one pitchwheel message with that
    value; reading [fader] afterwards returns it.  Writing 9000 caches
    8191 and writing -9000 caches -8192. *)
Theorem fader_setter_clamps {U : Type} (v : Z) (s : FaderPort U) :
  can_send s ->
  let clamped := Z.max (-8192) (Z.min 8191 v) in
  let s' := snd (fader_setter v s) in
  fader_setter v s =
    (Ok tt, extend (set_fader clamped s) [Sent (pitchwheel clamped)]) /\
  fader s' = (Ok clamped, s') /\
  _fader (snd (fader_setter 9000 s)) = 8191 /\
  _fader (snd (fader_setter (-9000) s)) = -8192.
Proof.
  intros Hs clamped s'. split; [|split; [|split]].
  - unfold fader_setter. rewrite !bind_run. unfold modify, gets.
    rewrite clamp_as_min_max. fold clamped.
    apply (outport_send_open (pitchwheel clamped) (set_fader clamped s)).
    exact Hs.
  - unfold fader, gets. subst s'. rewrite fader_setter_cache. reflexivity.
  - rewrite fader_setter_cache. reflexivity.
  - rewrite fader_setter_cache. reflexivity.
Qed.

(** ** Inbound note messages *)

Section Dispatch.
Context {U : Type} `{Hooks U}.

(** C4. A note-on message with note 104 is handed to [on_fader_touch]
    and to nothing else; with the code of a button it is handed to
    [on_button] with that button; with any other note it prints a
    diagnostic and returns.  The state passed on is [velocity != 0]. *)
Theorem note_on_dispatch (n w : Z) (s : FaderPort U) :
  (n = 104 ->
     _message_callback (note_on n w) s =
     on_fader_touch (bool_decide (w <> 0)) s) /\
  (forall c, n <> 104 -> c ∈ BUTTONS -> press c = n ->
     _message_callback (note_on n w) s =
     on_button c (bool_decide (w <> 0)) s) /\
  (n <> 104 -> (forall c, c ∈ BUTTONS -> press c <> n) ->
     _message_callback (note_on n w) s =
     (Ok tt, extend s [Printed [PyStr "Button not found:"; PyInt n]])).
Proof.
  assert (Hstate : negb (w =? 0) = bool_decide (w <> 0)).
  { destruct (Z.eqb_spec w 0) as [Hw|Hw]; symmetry.
    - apply bool_decide_eq_false_2. intros Hc; exact (Hc Hw).
    - apply bool_decide_eq_true_2. exact Hw. }
  split; [|split].
  - intros ->. simpl. rewrite Hstate. reflexivity.
  - intros c Hn Hin Hc. unfold _message_callback.
    rewrite (proj2 (Z.eqb_neq n 104) Hn).
    pose proof (button_from_press_in c Hin) as Hp.
    rewrite Hc in Hp. rewrite bind_run. unfold of_result.
    rewrite Hp, Hstate. reflexivity.
  - intros Hn Hno. unfold _message_callback.
    rewrite (proj2 (Z.eqb_neq n 104) Hn).
    rewrite bind_run. unfold of_result.
    rewrite (button_from_press_unknown n Hno).
    reflexivity.
Qed.

End Dispatch.

(** ** Glyphs *)

Lemma CHARACTERS_in_bounds :
  map_Forall (fun _ indices => Forall (fun i => (i < length BUTTONS)%nat) indices)
             CHARACTERS.
Proof. apply (bool_decide_unpack _). vm_compute. exact I. Qed.

(** The keys of [CHARACTERS] reached from one character are the hex
    digits, in either case. *)
Lemma hex_digit_has_glyph (a : ascii) :
  a ∈ hex_digits <-> is_Some (CHARACTERS !! Str.upper (String a EmptyString)).
Proof.
  assert (Hb : bool_decide (a ∈ hex_digits) =
               bool_decide (is_Some (CHARACTERS !! Str.upper (String a EmptyString)))).
  { destruct a as [[] [] [] [] [] [] [] []]; vm_compute; reflexivity. }
  split; intros Hx.
  - apply (proj1 (bool_decide_eq_true _)). rewrite <- Hb.
    apply bool_decide_eq_true_2, Hx.
  - apply (proj1 (bool_decide_eq_true _)). rewrite Hb.
    apply bool_decide_eq_true_2, Hx.
Qed.

Section Glyphs.
Context {U : Type}.
Implicit Types s : FaderPort U.

Lemma char_on_unknown (c : string) s :
  CHARACTERS !! Str.upper c = None -> char_on c s = (Ok tt, s).
Proof.
  intros Hc. unfold char_on, dict_contains.
  rewrite bool_decide_eq_false_2; [reflexivity|].
  rewrite Hc. intros [x Hx]; discriminate.
Qed.

Lemma char_on_known (c : string) (indices : list nat) s :
  CHARACTERS !! Str.upper c = Some indices ->
  char_on c s =
  for_each indices (fun i =>
    button ← of_result (list_getitem BUTTONS i); light_on button) s.
Proof.
  intros Hc. unfold char_on, dict_contains.
  rewrite bool_decide_eq_true_2 by (rewrite Hc; eexists; reflexivity).
  rewrite bind_run. unfold of_result, dict_getitem. rewrite Hc. reflexivity.
Qed.

(** Lighting in-range indices on an open port: one light-on command
    per index, for the button at that index. *)
Lemma light_indices_open (indices : list nat) s :
  Forall (fun i => (i < length BUTTONS)%nat) indices ->
  can_send s ->
  exists buttons,
    Forall2 (fun i b => BUTTONS !! i = Some b) indices buttons /\
    for_each indices (fun i =>
      button ← of_result (list_getitem BUTTONS i); light_on button) s =
    (Ok tt, extend s (light_on_cmds buttons)).
Proof.
  intros Hall; revert s; induction Hall as [|i l Hi Hl IH]; intros s Hs.
  - exists []. split; [constructor|]. simpl. rewrite extend_nil. reflexivity.
  - destruct (lookup_lt_is_Some_2 BUTTONS i Hi) as [b Hb].
    destruct (IH (extend s [Sent (note_on (press b) 127)])
                 (can_send_extend _ _ Hs)) as (bs & Hbs & Hrun).
    exists (b :: bs). split; [constructor; assumption|].
    cbn [for_each]. rewrite bind_run.
    rewrite bind_run. unfold of_result at 1, list_getitem at 1. rewrite Hb.
    unfold light_on at 1. rewrite (outport_send_open _ s Hs).
    rewrite Hrun, extend_extend. reflexivity.
Qed.

(** The same loop never runs off the end of [BUTTONS], open port or
    not: it returns, or a send raises. *)
Lemma light_indices_outcome (indices : list nat) s :
  Forall (fun i => (i < length BUTTONS)%nat) indices ->
  let r := fst (for_each indices (fun i =>
                  button ← of_result (list_getitem BUTTONS i);
                  light_on button) s) in
  r = Ok tt \/ r = Raise AttributeError \/ r = Raise ValueError.
Proof.
  intros Hall r. subst r.
  destruct (outport s) as [[nm []]|] eqn:Hp.
  - destruct Hall as [|i l Hi Hl]; [left; reflexivity|].
    destruct (lookup_lt_is_Some_2 BUTTONS i Hi) as [b Hb].
    right; right. cbn [for_each]. rewrite !bind_run.
    unfold of_result at 1, list_getitem at 1. rewrite Hb.
    unfold light_on at 1, outport_send at 1. rewrite bind_run.
    unfold gets. rewrite Hp. reflexivity.
  - destruct (light_indices_open indices s Hall) as (bs & _ & Hrun).
    { exists {| out_name := nm; out_closed := false |}.
      split; [exact Hp | reflexivity]. }
    left. rewrite Hrun. reflexivity.
  - destruct Hall as [|i l Hi Hl]; [left; reflexivity|].
    destruct (lookup_lt_is_Some_2 BUTTONS i Hi) as [b Hb].
    right; left. cbn [for_each]. rewrite !bind_run.
    unfold of_result at 1, list_getitem at 1. rewrite Hb.
    unfold light_on at 1, outport_send at 1. rewrite bind_run.
    unfold gets. rewrite Hp. reflexivity.
Qed.

(** C8. For a one-character string: a hex digit, in either case, sends
    on an open port exactly one light-on command per index of the glyph
    of its uppercase form, for the button at that index, and nothing
    else; any other character sends nothing and returns.  For ['A']
    the indices are 4, 5, 7, 10, 11, 12, 13, 14, 15, 18, 19, 23. *)
Theorem char_on_glyph (a : ascii) s :
  let c := String a EmptyString in
  (a ∈ hex_digits -> can_send s ->
     exists indices buttons,
       CHARACTERS !! Str.upper c = Some indices /\
       Forall2 (fun i b => BUTTONS !! i = Some b) indices buttons /\
       char_on c s = (Ok tt, extend s (light_on_cmds buttons))) /\
  (a ∉ hex_digits -> char_on c s = (Ok tt, s)) /\
  (can_send s ->
     exists buttons,
       Forall2 (fun i b => BUTTONS !! i = Some b)
               [4; 5; 7; 10; 11; 12; 13; 14; 15; 18; 19; 23]%nat buttons /\
       char_on "A" s = (Ok tt, extend s (light_on_cmds buttons))).
Proof.
  intros c. split; [|split].
  - intros Hhex Hs.
    destruct (proj1 (hex_digit_has_glyph a) Hhex) as [indices Hc].
    destruct (light_indices_open indices s
                (CHARACTERS_in_bounds _ _ Hc) Hs) as (bs & Hbs & Hrun).
    exists indices, bs. split; [exact Hc|]. split; [exact Hbs|].
    rewrite (char_on_known c indices s Hc). exact Hrun.
  - intros Hnot. apply char_on_unknown.
    destruct (CHARACTERS !! Str.upper c) as [x|] eqn:E; [|reflexivity].
    destruct Hnot. apply hex_digit_has_glyph. fold c. rewrite E.
    eexists; reflexivity.
  - intros Hs.
    assert (Hc : CHARACTERS !! Str.upper "A" =
                 Some [4; 5; 7; 10; 11; 12; 13; 14; 15; 18; 19; 23]%nat)
      by (vm_compute; reflexivity).
    destruct (light_indices_open _ s (CHARACTERS_in_bounds _ _ Hc) Hs)
      as (bs & Hbs & Hrun).
    exists bs. split; [exact Hbs|].
    rewrite (char_on_known "A" _ s Hc). exact Hrun.
Qed.

End Glyphs.

(** C10. Every index of every glyph is below 26, the length of
    [BUTTONS], so [char_on] never raises [IndexError], whatever string it
    is given and whatever state the ports are in. *)
Theorem glyph_indices_in_bounds :
  length BUTTONS = 26%nat /\
  map_Forall (fun _ indices => Forall (fun i => (i < 26)%nat) indices) CHARACTERS /\
  forall (U : Type) (c : string) (s : FaderPort U),
    fst (char_on c s) <> Raise IndexError.
Proof.
  split; [reflexivity|]. split; [exact CHARACTERS_in_bounds|].
  intros U c s.
  destruct (CHARACTERS !! Str.upper c) as [indices|] eqn:Hc.
  - rewrite (char_on_known c indices s Hc).
    destruct (light_indices_outcome indices s (CHARACTERS_in_bounds _ _ Hc))
      as [E | [E | E]]; rewrite E; discriminate.
  - rewrite (char_on_unknown c s Hc). discriminate.
Qed.

(** ** The chase *)

Lemma chase_seq_value :
  chase_seq =
  Ok [ {| name := "Solo"; press := 8 |}; {| name := "Mute"; press := 16 |};
       {| name := "Arm"; press := 0 |}; {| name := "Shift"; press := 70 |};
       {| name := "Read"; press := 74 |}; {| name := "Scroll"; press := 56 |};
       {| name := "Marker"; press := 61 |}; {| name := "Section"; press := 60 |};
       {| name := "Click"; press := 59 |}; {| name := "Master"; press := 58 |};
       {| name := "Link"; press := 5 |}; {| name := "Bypass"; press := 3 |} ].
Proof. vm_compute. reflexivity. Qed.

Lemma chase_num_lights_cases (n : Z) :
  chase_num_lights n = if bool_decide (1 <= n <= 4) then n else 2.
Proof.
  unfold chase_num_lights.
  destruct (decide (1 <= n <= 4)) as [Hin | Hout].
  - rewrite (bool_decide_eq_true_2 _ Hin).
    rewrite bool_decide_eq_true_2; [reflexivity|].
    assert (n = 1 \/ n = 2 \/ n = 3 \/ n = 4) as Hcases by lia.
    destruct Hcases as [E | [E | [E | E] ] ]; rewrite E;
      repeat rewrite elem_of_cons; lia.
  - rewrite (bool_decide_eq_false_2 _ Hout).
    rewrite bool_decide_eq_false_2; [reflexivity|].
    intros Hin. apply Hout.
    repeat (apply elem_of_cons in Hin as [-> | Hin]; [lia|]).
    inversion Hin.
Qed.

(** C2 (as the code has it). [chase] builds its twelve-button sequence
    and then as many cursors as [num_lights] when that is 1, 2, 3 or 4,
    and two cursors for any other value; cursor [i] is the cycle over
    the sequence advanced by [i * (12 // n)] positions, [n] being the
    number of cursors. *)
Theorem chase_cursors (num_lights : Z) :
  let n := Z.to_nat (if bool_decide (1 <= num_lights <= 4) then num_lights else 2) in
  exists sq its,
    chase_seq = Ok sq /\ length sq = 12%nat /\
    chase_setup num_lights = Ok its /\
    length its = n /\
    forall i, (i < n)%nat ->
      its !! i = Some (consume (cycle sq) (i * (12 / n))) /\
      its !! i = Some {| saved := sq; position := (i * (12 / n))%nat |}.
Proof.
  intros n. unfold chase_setup. rewrite chase_seq_value.
  eexists _, _. split; [reflexivity|]. split; [reflexivity|].
  split; [reflexivity|].
  subst n. rewrite chase_num_lights_cases.
  destruct (decide (1 <= num_lights <= 4)) as [Hin | Hout].
  - rewrite (bool_decide_eq_true_2 _ Hin).
    assert (num_lights = 1 \/ num_lights = 2 \/ num_lights = 3 \/ num_lights = 4)
      as [-> | [-> | [-> | ->] ] ] by lia;
      (split; [reflexivity|]);
      intros i Hi;
      repeat (destruct i as [|i]; [split; reflexivity|]);
      exfalso; change (Z.to_nat 1) with 1%nat in Hi;
      change (Z.to_nat 2) with 2%nat in Hi;
      change (Z.to_nat 3) with 3%nat in Hi;
      change (Z.to_nat 4) with 4%nat in Hi; lia.
  - rewrite (bool_decide_eq_false_2 _ Hout).
    split; [reflexivity|]. intros i Hi.
    repeat (destruct i as [|i]; [split; reflexivity|]).
    exfalso; change (Z.to_nat 2) with 2%nat in Hi; lia.
Qed.

(** C2 as claimed fails: seven lights asked for give two cursors, not
    four, and none asked for give two, not one. *)
Lemma chase_does_not_clamp :
  (exists its, chase_setup 7 = Ok its /\ length its = 2%nat /\
               length its <> Z.to_nat (Z.max 1 (Z.min 4 7))) /\
  (exists its, chase_setup 0 = Ok its /\ length its = 2%nat /\
               length its <> Z.to_nat (Z.max 1 (Z.min 4 0))).
Proof.
  split; eexists; (split; [vm_compute; reflexivity|]);
    (split; [reflexivity | vm_compute; discriminate]).
Qed.

Section ChaseRun.
Context {U : Type}.
Implicit Types s : FaderPort U.

(** On an open port a pass over the cursors lights the buttons under
    them, in order, and moves every cursor on. *)
Lemma chase_tick_open (its its' : list (cycle_iter Button)) (bs : list Button) s :
  advance its = Some (bs, its') ->
  can_send s ->
  chase_tick its s = (Ok its', extend s (light_on_cmds bs)).
Proof.
  revert its' bs s; induction its as [|it rest IH]; intros its' bs s Hadv Hs.
  - injection Hadv as <- <-. simpl. rewrite extend_nil. reflexivity.
  - simpl in Hadv. cbn [chase_tick].
    destruct (next it) as [[b it1]|]; [|discriminate].
    destruct (advance rest) as [[bs1 rest1]|] eqn:Hrest; [|discriminate].
    injection Hadv as <- <-.
    rewrite bind_run. unfold light_on at 1.
    rewrite (outport_send_open _ s Hs).
    rewrite bind_run, (IH rest1 bs1 _ eq_refl (can_send_extend _ _ Hs)).
    rewrite extend_extend. reflexivity.
Qed.

Lemma sleep_ok (d : Q) s :
  (0 <= d)%Q -> sleep d s = (Ok tt, extend s [Slept d]).
Proof.
  intros Hd. unfold sleep.
  rewrite (proj2 (Qle_bool_iff 0 d) Hd). reflexivity.
Qed.

(** The loop of [chase], from any configuration of a set closed under
    ticks in which every tick lights [n] distinct buttons. *)
Lemma chase_loop_steady (n : nat) (known : list (list (cycle_iter Button)))
    (d : Q) (ticks : nat) :
  forallb (steady n known) known = true ->
  (0 <= d)%Q ->
  forall (its : list (cycle_iter Button)) s,
    its ∈ known -> can_send s ->
    exists lits : list (list Button),
      length lits = ticks /\
      chase_loop d ticks its s =
        (Ok tt, extend s (concat (tick_effects d <$> lits))) /\
      Forall (fun lit => length lit = n /\ NoDup (press <$> lit)) lits.
Proof.
  intros Hknown Hd. induction ticks as [|ticks IH]; intros its s Hin Hs.
  - exists []. split; [reflexivity|]. split; [|constructor].
    simpl. rewrite extend_nil. reflexivity.
  - pose proof (proj1 (forallb_forall _ _) Hknown its
                  (proj1 (list_elem_of_In _ _) Hin)) as Hst.
    unfold steady in Hst.
    destruct (advance its) as [[bs its']|] eqn:Hadv; [|discriminate].
    apply andb_prop in Hst as [Hst Hnext].
    apply andb_prop in Hst as [Hlen Hnd].
    apply bool_decide_eq_true in Hlen, Hnd, Hnext.
    destruct (IH its' (extend s (tick_effects d bs)) Hnext
                 (can_send_extend _ _ Hs)) as (lits & Hl & Hrun & Hall).
    exists (bs :: lits). split; [simpl; congruence|].
    split; [|constructor; [split; assumption | exact Hall]].
    cbn [chase_loop]. rewrite bind_run, (chase_tick_open _ _ _ _ Hadv Hs).
    rewrite bind_run, (sleep_ok d _ Hd), extend_extend.
    rewrite bind_run, all_off_open by (apply can_send_extend; exact Hs).
    rewrite extend_extend.
    replace ((light_on_cmds bs ++ [Slept d]) ++ light_off_cmds BUTTONS)%list
      with (tick_effects d bs)
      by (unfold tick_effects; rewrite <- app_assoc; reflexivity).
    rewrite Hrun, extend_extend. reflexivity.
Qed.

(** C5. With 1, 2, 3 or 4 lights, on an open port and with a
    non-negative duration, [chase] performs exactly [ticks] ticks; each
    tick sends its light-on commands, sleeps, then turns every light
    off, and the buttons lit in the on-phase of every tick are exactly
    [num_lights] many, with pairwise distinct codes. *)
Theorem chase_lights_per_tick (d : Q) (num_lights ticks : Z) s :
  num_lights ∈ [1; 2; 3; 4] ->
  (0 <= d)%Q ->
  can_send s ->
  exists lits : list (list Button),
    length lits = Z.to_nat ticks /\
    chase d num_lights ticks s =
      (Ok tt, extend s (concat (tick_effects d <$> lits))) /\
    Forall (fun lit => length lit = Z.to_nat num_lights /\
                       NoDup (press <$> lit)) lits.
Proof.
  intros Hn Hd Hs. unfold chase, chase_setup.
  rewrite chase_seq_value, bind_run. unfold of_result.
  set (its := chase_its _ _).
  apply (chase_loop_steady (Z.to_nat num_lights) (orbit 12 its) d
           (Z.to_nat ticks)); [|exact Hd| |exact Hs].
  - subst its.
    repeat (apply elem_of_cons in Hn as [Hn | Hn];
            [rewrite Hn; vm_compute; reflexivity|]).
    inversion Hn.
  - left.
Qed.

End ChaseRun.

(** ** Closing *)

Section Closing.
Context {U : Type} `{Hooks U}.
Implicit Types s : FaderPort U.

(** What [close] does once [on_close] has returned, on ports that are
    there and an output port that is open. *)
Lemma teardown_steps s (ip : InPort) (op : OutPort) :
  inport s = Some ip -> outport s = Some op -> out_closed op = false ->
  (inport_set_callback None;;
   fader_setter (-8192);;
   all_off;;
   outport_reset;;
   inport_close;;
   outport_close) s =
  (Ok tt,
   mkFaderPort
     (Some {| in_name := in_name ip; callback := None; in_closed := true |})
     (Some {| out_name := out_name op; out_closed := true |})
     (-8192) (_msb s) (attrs s)
     (effects s ++ Sent (pitchwheel (-8192)) :: light_off_cmds BUTTONS
                ++ [PortReset])).
Proof.
  intros Hip Hop Hopen. destruct s as [i o f m u es]. simpl in Hip, Hop.
  subst i o. destruct op as [nm closed]. simpl in Hopen. subst closed.
  erewrite bind_ok by reflexivity.
  erewrite bind_ok by reflexivity.
  erewrite bind_ok
    by (apply all_off_open; eexists; split; reflexivity).
  erewrite bind_ok by reflexivity.
  erewrite bind_ok by reflexivity.
  unfold outport_close, extend, light_off_cmds. rewrite bind_run.
  unfold gets, modify, set_outport, set_inport, emit.
  cbn -[BUTTONS fmap app].
  rewrite <- !app_assoc. reflexivity.
Qed.

(** C1 (as the code has it). When [on_close] returns and leaves both
    ports in place with the output port open, [close] returns with the
    callback unregistered, the fader cached at -8192 and that value
    sent, one light-off command sent for each of the 26 buttons, the
    output port reset and both ports closed.  When [on_close] raises,
    [close] raises the same and no teardown step has run. *)
Theorem close_teardown s :
  (forall s' ip op,
      on_close s = (Ok tt, s') ->
      inport s' = Some ip -> outport s' = Some op -> out_closed op = false ->
      close s =
        (Ok tt,
         mkFaderPort
           (Some {| in_name := in_name ip; callback := None;
                    in_closed := true |})
           (Some {| out_name := out_name op; out_closed := true |})
           (-8192) (_msb s') (attrs s')
           (effects s' ++ Sent (pitchwheel (-8192))
                       :: light_off_cmds BUTTONS ++ [PortReset])) /\
      torn_down s' (snd (close s))) /\
  (forall e s', on_close s = (Raise e, s') -> close s = (Raise e, s')).
Proof.
  split.
  - intros s' ip op Hhook Hip Hop Hopen.
    assert (Hclose : close s = (Ok tt,
         mkFaderPort
           (Some {| in_name := in_name ip; callback := None;
                    in_closed := true |})
           (Some {| out_name := out_name op; out_closed := true |})
           (-8192) (_msb s') (attrs s')
           (effects s' ++ Sent (pitchwheel (-8192))
                       :: light_off_cmds BUTTONS ++ [PortReset]))).
    { unfold close. rewrite (bind_ok _ _ _ _ _ Hhook).
      exact (teardown_steps s' ip op Hip Hop Hopen). }
    split; [exact Hclose|]. rewrite Hclose. cbn [snd].
    split; [eexists; cbn; repeat split|].
    split; [eexists; cbn; repeat split|].
    split; [reflexivity|].
    eexists. split; [reflexivity|]. split; [left|]. split.
    + intros c Hc. right. apply elem_of_app. left.
      unfold light_off_cmds.
      exact (list_elem_of_fmap_2 (fun b => Sent (note_on (press b) 0)) _ _ Hc).
    + right. apply elem_of_app. right. left.
  - intros e s' Hhook. unfold close. exact (bind_raise _ _ _ _ _ Hhook).
Qed.

End Closing.

Lemma close_teardown_witness :
  torn_down (extend demo_opened [Printed [PyStr "FaderPort closing..."]])
            (snd (close demo_opened)) /\
  @close unit failing_hooks failing_opened =
    (Raise (Exception "on_close failed"), failing_opened).
Proof.
  split.
  - destruct (close_teardown demo_opened) as [Hok _].
    refine (proj2 (Hok _ _ _ _ _ _ _)); vm_compute; reflexivity.
  - destruct (@close_teardown unit failing_hooks failing_opened) as [_ Hraise].
    apply Hraise. reflexivity.
Defined.

(** C1 as claimed fails: with an [on_close] that raises, [close] leaves
    the callback registered and both ports open, and sends nothing. *)
Lemma close_skips_teardown_when_hook_raises :
  @close unit failing_hooks failing_opened =
    (Raise (Exception "on_close failed"), failing_opened) /\
  (exists ip, inport failing_opened = Some ip /\
              callback ip = Some bound_message_callback /\
              in_closed ip = false) /\
  (exists op, outport failing_opened = Some op /\ out_closed op = false) /\
  ~ torn_down failing_opened (snd (@close unit failing_hooks failing_opened)).
Proof.
  split; [reflexivity|].
  split; [eexists; vm_compute; repeat split|].
  split; [eexists; vm_compute; repeat split|].
  intros (_ & (op & Hop & Hclosed) & _).
  vm_compute in Hop. injection Hop as <-. discriminate Hclosed.
Qed.

(** ** The fader stays in range *)

Create HintDb fader_range discriminated.

Section FaderRangeSteps.
Context {U : Type}.
Implicit Types s : FaderPort U.

Lemma keeps_ret {A : Type} (a : A) : keeps_fader_in_range (mret a : M U A).
Proof. intros s Hs. exact Hs. Qed.

Lemma keeps_raise {A : Type} (e : Exn) :
  keeps_fader_in_range (raise e : M U A).
Proof. intros s Hs. exact Hs. Qed.

Lemma keeps_of_result {A : Type} (r : Result A) :
  keeps_fader_in_range (of_result r : M U A).
Proof. intros s Hs. exact Hs. Qed.

Lemma keeps_gets {A : Type} (f : FaderPort U -> A) :
  keeps_fader_in_range (gets f).
Proof. intros s Hs. exact Hs. Qed.

Lemma keeps_bind {A B : Type} (m : M U A) (f : A -> M U B) :
  keeps_fader_in_range m ->
  (forall a, keeps_fader_in_range (f a)) ->
  keeps_fader_in_range (m ≫= f).
Proof.
  intros Hm Hf s Hs. rewrite bind_run.
  specialize (Hm s Hs). destruct (m s) as [[a|e] s1]; simpl in Hm.
  - apply Hf. exact Hm.
  - exact Hm.
Qed.

Lemma keeps_for_each {A : Type} (l : list A) (body : A -> M U unit) :
  (forall x, keeps_fader_in_range (body x)) ->
  keeps_fader_in_range (for_each l body).
Proof.
  intros Hbody. induction l as [|x l IH]; simpl.
  - apply keeps_ret.
  - apply keeps_bind; [apply Hbody | intros _; exact IH].
Qed.

Lemma keeps_emit (e : Effect) :
  effect_in_range e -> keeps_fader_in_range (modify (emit e) : M U unit).
Proof.
  intros He s [Hf Hes]. split; [exact Hf|]. simpl.
  apply Forall_app. split; [exact Hes | constructor; [exact He | constructor]].
Qed.

Lemma keeps_set_fader (v : Z) :
  -8192 <= v <= 8191 -> keeps_fader_in_range (modify (set_fader v) : M U unit).
Proof. intros Hv s [_ Hes]. split; [exact Hv | exact Hes]. Qed.

Lemma keeps_set_inport (p : option InPort) :
  keeps_fader_in_range (modify (set_inport p) : M U unit).
Proof. intros s Hs. exact Hs. Qed.

Lemma keeps_set_outport (p : option OutPort) :
  keeps_fader_in_range (modify (set_outport p) : M U unit).
Proof. intros s Hs. exact Hs. Qed.

Lemma keeps_print (args : list PyVal) : keeps_fader_in_range (print args : M U unit).
Proof. apply keeps_emit. exact I. Qed.

Lemma keeps_sleep (d : Q) : keeps_fader_in_range (sleep d : M U unit).
Proof.
  unfold sleep. destruct (Qle_bool 0 d);
    [apply keeps_emit; exact I | apply keeps_raise].
Qed.

Lemma keeps_outport_send (msg : Message) :
  well_formed msg -> keeps_fader_in_range (outport_send msg : M U unit).
Proof.
  intros Hmsg. unfold outport_send.
  apply keeps_bind; [apply keeps_gets|]. intros [port|]; [|apply keeps_raise].
  destruct (out_closed port); [apply keeps_raise | apply keeps_emit; exact Hmsg].
Qed.

Lemma keeps_outport_reset : keeps_fader_in_range (outport_reset : M U unit).
Proof.
  unfold outport_reset.
  apply keeps_bind; [apply keeps_gets|]. intros [port|]; [|apply keeps_raise].
  destruct (out_closed port); [apply keeps_ret | apply keeps_emit; exact I].
Qed.

Lemma keeps_outport_close : keeps_fader_in_range (outport_close : M U unit).
Proof.
  unfold outport_close.
  apply keeps_bind; [apply keeps_gets|]. intros [port|];
    [apply keeps_set_outport | apply keeps_raise].
Qed.

Lemma keeps_inport_set_callback (cb : option Callback) :
  keeps_fader_in_range (inport_set_callback cb : M U unit).
Proof.
  unfold inport_set_callback.
  apply keeps_bind; [apply keeps_gets|]. intros [port|];
    [apply keeps_set_inport | apply keeps_raise].
Qed.

Lemma keeps_inport_close : keeps_fader_in_range (inport_close : M U unit).
Proof.
  unfold inport_close.
  apply keeps_bind; [apply keeps_gets|]. intros [port|];
    [apply keeps_set_inport | apply keeps_raise].
Qed.

Lemma keeps_light_on (b : Button) : keeps_fader_in_range (light_on b : M U unit).
Proof. apply keeps_outport_send. exact I. Qed.

Lemma keeps_light_off (b : Button) : keeps_fader_in_range (light_off b : M U unit).
Proof. apply keeps_outport_send. exact I. Qed.

(** The setter clamps before it caches and before it sends. *)
Lemma keeps_fader_setter (v : Z) : keeps_fader_in_range (fader_setter v : M U unit).
Proof.
  intros s Hs. unfold fader_setter. rewrite clamp_as_min_max.
  rewrite (bind_ok _ _ s tt (set_fader (Z.max (-8192) (Z.min 8191 v)) s))
    by reflexivity.
  rewrite (bind_ok _ _ _ (Z.max (-8192) (Z.min 8191 v))
                   (set_fader (Z.max (-8192) (Z.min 8191 v)) s))
    by reflexivity.
  apply keeps_outport_send; [simpl; lia|].
  apply (keeps_set_fader (Z.max (-8192) (Z.min 8191 v))); [lia | exact Hs].
Qed.

Lemma keeps_fader_get : keeps_fader_in_range (fader : M U Z).
Proof. apply keeps_gets. Qed.

End FaderRangeSteps.

#[global] Hint Resolve keeps_ret keeps_raise keeps_of_result keeps_gets
  keeps_print keeps_sleep keeps_outport_reset keeps_outport_close
  keeps_inport_set_callback keeps_inport_close keeps_light_on
  keeps_light_off keeps_fader_setter keeps_fader_get keeps_set_inport
  keeps_set_outport : fader_range.

(** Sequencing and loops of range-keeping steps. *)
Ltac keeps :=
  repeat match goal with
    | |- keeps_fader_in_range (for_each _ _) =>
        apply keeps_for_each; intros ?
    | |- keeps_fader_in_range (_ ≫= _) => apply keeps_bind; [|intros ?]
    | |- keeps_fader_in_range _ => solve [auto with fader_range]
    end.

Section FaderRange.
Context {U : Type}.
Implicit Types s : FaderPort U.

Lemma keeps_all_off : keeps_fader_in_range (all_off : M U unit).
Proof. unfold all_off. keeps. Qed.

Lemma keeps_all_on : keeps_fader_in_range (all_on : M U unit).
Proof. unfold all_on. keeps. Qed.

#[local] Hint Resolve keeps_all_off keeps_all_on : fader_range.

Lemma keeps_snake (d : Q) : keeps_fader_in_range (snake d : M U unit).
Proof. unfold snake. keeps. Qed.

Lemma keeps_blink (d : Q) (n : Z) : keeps_fader_in_range (blink d n : M U unit).
Proof. unfold blink. keeps. Qed.

Lemma keeps_char_on (c : string) : keeps_fader_in_range (char_on c : M U unit).
Proof. unfold char_on. destruct (dict_contains _ _); keeps. Qed.

#[local] Hint Resolve keeps_char_on : fader_range.

Lemma keeps_countdown (d : Q) : keeps_fader_in_range (countdown d : M U unit).
Proof. unfold countdown. keeps. Qed.

Lemma keeps_chase_tick (its : list (cycle_iter Button)) :
  keeps_fader_in_range (chase_tick its : M U _).
Proof.
  induction its as [|it rest IH]; cbn [chase_tick]; [keeps|].
  destruct (next it) as [[b it']|]; [|keeps].
  apply keeps_bind; [keeps|]. intros _.
  apply keeps_bind; [exact IH|]. intros ?. keeps.
Qed.

Lemma keeps_chase_loop (d : Q) (ticks : nat) (its : list (cycle_iter Button)) :
  keeps_fader_in_range (chase_loop d ticks its : M U unit).
Proof.
  revert its; induction ticks as [|ticks IH]; intros its; cbn [chase_loop];
    [keeps|].
  apply keeps_bind; [apply keeps_chase_tick|]. intros its'.
  apply keeps_bind; [keeps|]. intros _.
  apply keeps_bind; [keeps|]. intros _. apply IH.
Qed.

Lemma keeps_chase (d : Q) (n ticks : Z) :
  keeps_fader_in_range (chase d n ticks : M U unit).
Proof.
  unfold chase. apply keeps_bind; [keeps|]. intros its. apply keeps_chase_loop.
Qed.

Context `{Backend} `{Hooks U}.
Hypothesis hooks_ok : hooks_keep_fader_in_range _.

Lemma keeps_message_callback (msg : Message) :
  well_formed msg -> keeps_fader_in_range (_message_callback msg).
Proof.
  destruct hooks_ok as (_ & _ & Hrot & Hbtn & Htouch & Hfader).
  intros Hmsg. destruct msg as [p | n w | c v | t]; cbn [_message_callback].
  - apply keeps_bind; [apply keeps_set_fader; exact Hmsg|]. intros _.
    apply keeps_bind; [keeps|]. intros v. apply Hfader.
  - destruct (n =? 104); [apply Htouch|].
    apply keeps_bind; [keeps|]. intros [b|]; [apply Hbtn | keeps].
  - destruct (c =? 16); [apply Hrot | keeps].
  - keeps.
Qed.

Lemma keeps_open (number : Z) : keeps_fader_in_range (open number).
Proof.
  destruct hooks_ok as (Hopen & _). unfold open.
  keeps.
Qed.

Lemma keeps_close : keeps_fader_in_range close.
Proof.
  destruct hooks_ok as (_ & Hclose & _). unfold close.
  apply keeps_bind; [exact Hclose|]. intros _. keeps.
Qed.

Lemma keeps_perform (c : Call) :
  admissible c -> keeps_fader_in_range (perform c).
Proof.
  intros Hc. destruct c; cbn [perform].
  - apply keeps_open.
  - apply keeps_close.
  - apply keeps_fader_setter.
  - apply keeps_message_callback. exact Hc.
  - apply keeps_light_on.
  - apply keeps_light_off.
  - apply keeps_all_off.
  - apply keeps_all_on.
  - apply keeps_snake.
  - apply keeps_blink.
  - apply keeps_char_on.
  - apply keeps_countdown.
  - apply keeps_chase.
Qed.

(** C9. The cached fader is -8192 in a fresh object, and after any
    sequence of method calls and inbound well-formed messages, whether
    they return or raise, the cached fader and every pitchwheel value
    sent lie in [-8192, 8191]: the setter clamps, the inbound pitch is
    a signed 14-bit value, and nothing else in the class writes the
    cache.  The subclass hooks are taken to keep the range themselves. *)
Theorem fader_always_in_range (u : U) (s : FaderPort U) :
  reachable u s ->
  _fader (__init__ u) = -8192 /\
  -8192 <= _fader s <= 8191 /\
  (forall p, Sent (pitchwheel p) ∈ effects s -> -8192 <= p <= 8191).
Proof.
  intros Hreach. split; [reflexivity|].
  assert (Hinv : fader_in_range s).
  { induction Hreach as [|c s Hreach IH Hc].
    - split; [simpl; lia | constructor].
    - exact (keeps_perform c Hc s IH). }
  destruct Hinv as [Hf Hes]. split; [exact Hf|].
  intros p Hp. exact (proj1 (Forall_forall _ _) Hes _ Hp).
Qed.

End FaderRange.

(** ** Instances *)

Lemma demo_opened_can_send : can_send demo_opened.
Proof. eexists. split; vm_compute; reflexivity. Qed.

(** [TestFaderPort] moves the fader through the property only. *)
Lemma test_hooks_keep_fader_in_range :
  hooks_keep_fader_in_range TestFaderPort.hooks.
Proof.
  refine (conj _ (conj _ (conj _ (conj _ (conj _ _)))));
    cbn [on_open on_close on_rotary on_button on_fader_touch on_fader
         TestFaderPort.hooks].
  - unfold TestFaderPort.test_on_open. keeps.
  - unfold TestFaderPort.test_on_close. keeps.
  - intros d. unfold TestFaderPort.test_on_rotary, TestFaderPort.shift.
    apply keeps_bind; [keeps|]. intros _.
    apply keeps_bind; [keeps|]. intros [|]; cbv iota; keeps.
  - intros b st. unfold TestFaderPort.test_on_button.
    apply keeps_bind; [keeps|]. intros _.
    apply keeps_bind.
    { destruct (bool_decide _); [|keeps]. intros s Hs; exact Hs. }
    intros _. apply keeps_bind.
    { destruct (_ && _); [|keeps]. intros s Hs; exact Hs. }
    intros _. apply keeps_bind; [keeps|]. intros [|]; cbv iota; [keeps|].
    destruct st; keeps.
  - intros st. unfold TestFaderPort.test_on_fader_touch. keeps.
  - intros v. unfold TestFaderPort.test_on_fader. keeps.
Qed.

Lemma fader_setter_clamps_witness :
  can_send demo_opened /\
  fader_setter 9000 demo_opened =
    (Ok tt, extend (set_fader 8191 demo_opened) [Sent (pitchwheel 8191)]).
Proof.
  split; [exact demo_opened_can_send|].
  destruct (fader_setter_clamps 9000 demo_opened demo_opened_can_send)
    as (Hrun & _).
  exact Hrun.
Defined.

Lemma note_on_dispatch_witness :
  16 <> 104 /\ {| name := "Mute"; press := 16 |} ∈ BUTTONS /\
  _message_callback (note_on 16 0) demo_opened =
    on_button {| name := "Mute"; press := 16 |} false demo_opened.
Proof.
  assert (Hin : {| name := "Mute"; press := 16 |} ∈ BUTTONS)
    by (apply (bool_decide_unpack _); vm_compute; exact I).
  split; [discriminate|]. split; [exact Hin|].
  destruct (note_on_dispatch 16 0 demo_opened) as (_ & Hbutton & _).
  apply (Hbutton {| name := "Mute"; press := 16 |});
    [discriminate | exact Hin | reflexivity].
Defined.

Lemma char_on_glyph_witness :
  "a"%char ∈ hex_digits /\ can_send demo_opened /\
  exists indices buttons,
    CHARACTERS !! "A" = Some indices /\
    Forall2 (fun i b => BUTTONS !! i = Some b) indices buttons /\
    char_on "a" demo_opened = (Ok tt, extend demo_opened (light_on_cmds buttons)).
Proof.
  assert (Hhex : "a"%char ∈ hex_digits)
    by (apply (bool_decide_unpack _); vm_compute; exact I).
  split; [exact Hhex|]. split; [exact demo_opened_can_send|].
  destruct (char_on_glyph "a"%char demo_opened) as (Hglyph & _ & _).
  exact (Hglyph Hhex demo_opened_can_send).
Defined.

Lemma chase_lights_per_tick_witness :
  3 ∈ [1; 2; 3; 4] /\ (0 <= 1 # 10)%Q /\ can_send demo_opened /\
  exists lits : list (list Button),
    length lits = 2%nat /\
    chase (1 # 10) 3 2 demo_opened =
      (Ok tt, extend demo_opened (concat (tick_effects (1 # 10) <$> lits))) /\
    Forall (fun lit => length lit = 3%nat /\ NoDup (press <$> lit)) lits.
Proof.
  assert (Hn : 3 ∈ [1; 2; 3; 4])
    by (apply (bool_decide_unpack _); vm_compute; exact I).
  assert (Hd : (0 <= 1 # 10)%Q) by (unfold Qle; simpl; lia).
  split; [exact Hn|]. split; [exact Hd|]. split; [exact demo_opened_can_send|].
  exact (chase_lights_per_tick (1 # 10) 3 2 demo_opened Hn Hd
           demo_opened_can_send).
Defined.

Lemma fader_always_in_range_witness :
  let s := snd (@perform demo_backend _ TestFaderPort.hooks
                  (CallFaderSet 9000) demo_opened) in
  hooks_keep_fader_in_range TestFaderPort.hooks /\
  @reachable demo_backend _ TestFaderPort.hooks (attrs TestFaderPort.init) s /\
  _fader s = 8191 /\
  -8192 <= _fader s <= 8191.
Proof.
  intros s.
  assert (Hreach : @reachable demo_backend _ TestFaderPort.hooks
                     (attrs TestFaderPort.init) s).
  { apply reachable_call; [|exact I].
    apply (@reachable_call demo_backend _ TestFaderPort.hooks _ (CallOpen 0));
      [apply reachable_init | exact I]. }
  split; [exact test_hooks_keep_fader_in_range|].
  split; [exact Hreach|]. split; [reflexivity|].
  destruct (@fader_always_in_range _ demo_backend TestFaderPort.hooks
              test_hooks_keep_fader_in_range _ s Hreach) as (_ & Hrange & _).
  exact Hrange.
Defined.

(** * Further properties *)

(** ** Name lookup is case-insensitive *)

Lemma is_cased_lower_char (c : ascii) :
  Str.is_cased (Str.lower_char c) = Str.is_cased c.
Proof. destruct c as [[] [] [] [] [] [] [] []]; reflexivity. Qed.

Lemma upper_lower_char (c : ascii) :
  Str.upper_char (Str.lower_char c) = Str.upper_char c.
Proof. destruct c as [[] [] [] [] [] [] [] []]; reflexivity. Qed.

(** Title-casing does not look at the case of its input. *)
Lemma title_from_lower (b : bool) (s : string) :
  Str.title_from b (Str.lower s) = Str.title_from b s.
Proof.
  revert b; induction s as [|c r IH]; intros b; simpl; [reflexivity|].
  rewrite is_cased_lower_char, IH. f_equal.
  destruct b; [apply StrFacts.lower_char_idem | apply upper_lower_char].
Qed.

Lemma BUTTONS_names_titled :
  Forall (fun c => Str.title (name c) = name c) BUTTONS.
Proof. unfold BUTTONS. repeat constructor. Qed.

(** X1. For an ASCII name, [button_from_name] returns a button exactly
    when the name equals a button name up to the case of its letters,
    and then it returns that button. *)
Theorem button_from_name_iff (n : string) (c : Button) :
  Str.isascii n = true ->
  (button_from_name n = Ok c <->
   c ∈ BUTTONS /\ Str.lower n = Str.lower (name c)).
Proof.
  intros _. split.
  - intros Hok. destruct (button_from_name_Ok n c Hok) as [Hin Hname].
    split; [exact Hin|]. rewrite Hname. symmetry. apply StrFacts.lower_title.
  - intros [Hin Hlow].
    assert (Htitle : Str.title n = name c).
    { unfold Str.title. rewrite <- title_from_lower, Hlow, title_from_lower.
      exact (proj1 (Forall_forall _ _) BUTTONS_names_titled c Hin). }
    pose proof (button_from_name_in c Hin) as Hc.
    unfold button_from_name in *. rewrite Htitle.
    rewrite (proj1 (Forall_forall _ _) BUTTONS_names_titled c Hin) in Hc.
    exact Hc.
Qed.

Lemma button_from_name_iff_witness :
  Str.isascii "mUTE" = true /\
  button_from_name "mUTE" = Ok {| name := "Mute"; press := 16 |}.
Proof.
  split; [reflexivity|].
  apply (button_from_name_iff "mUTE" {| name := "Mute"; press := 16 |} eq_refl).
  split; [|reflexivity].
  apply (bool_decide_unpack _). vm_compute. exact I.
Defined.

(** ** Every button reaches [on_button] *)

Lemma BUTTONS_codes :
  Forall (fun c => 0 <= press c <= 127 /\ press c <> 104) BUTTONS.
Proof. unfold BUTTONS. repeat constructor; (lia || discriminate). Qed.

Lemma velocity_state (w : Z) : negb (w =? 0) = bool_decide (w <> 0).
Proof.
  destruct (Z.eqb_spec w 0) as [Hw|Hw]; symmetry.
  - apply bool_decide_eq_false_2. intros Hc; exact (Hc Hw).
  - apply bool_decide_eq_true_2. exact Hw.
Qed.

(** X2. The code of every button is a MIDI note (0 to 127) other than the
    fader-touch note 104, so a note-on message with a button's code is
    always handed to [on_button] with that button, never to
    [on_fader_touch]. *)
Theorem every_button_dispatched {U : Type} `{Hooks U}
    (c : Button) (w : Z) (s : FaderPort U) :
  c ∈ BUTTONS ->
  0 <= press c <= 127 /\ press c <> 104 /\
  _message_callback (note_on (press c) w) s =
    on_button c (bool_decide (w <> 0)) s.
Proof.
  intros Hin.
  destruct (proj1 (Forall_forall _ _) BUTTONS_codes c Hin) as [Hrange Hne].
  split; [exact Hrange|]. split; [exact Hne|].
  unfold _message_callback. rewrite (proj2 (Z.eqb_neq _ _) Hne).
  rewrite bind_run. unfold of_result.
  rewrite (button_from_press_in c Hin), velocity_state. reflexivity.
Qed.

Lemma every_button_dispatched_witness :
  {| name := "Play"; press := 94 |} ∈ BUTTONS /\
  _message_callback (note_on 94 127) demo_opened =
    on_button {| name := "Play"; press := 94 |} true demo_opened.
Proof.
  assert (Hin : {| name := "Play"; press := 94 |} ∈ BUTTONS)
    by (apply (bool_decide_unpack _); vm_compute; exact I).
  split; [exact Hin|].
  destruct (every_button_dispatched {| name := "Play"; press := 94 |} 127
              demo_opened Hin) as (_ & _ & Hrun).
  exact Hrun.
Defined.

(** ** Port discovery *)

(** X3. [find_faderport_input_name] and [find_faderport_output_name]: the
    name returned is the [number]-th listed port whose lowercased name
    starts with "presonus fp2"; a negative [number], or one that is not
    below the count of such ports, gives [None]. *)
Theorem pick_port_spec (names : list string) (number : Z) :
  (forall nm, pick_port names number = Some nm ->
     0 <= number /\ nm ∈ names /\ is_faderport nm = true /\
     List.filter is_faderport names !! Z.to_nat number = Some nm) /\
  (number < 0 \/ Z.of_nat (length (List.filter is_faderport names)) <= number ->
     pick_port names number = None) /\
  (0 <= number < Z.of_nat (length (List.filter is_faderport names)) ->
     exists nm, pick_port names number = Some nm).
Proof.
  unfold pick_port. split; [|split].
  - intros nm Hpick.
    destruct (Z.leb_spec 0 number) as [H0|H0]; [|discriminate].
    destruct (Z.ltb_spec number
                (Z.of_nat (length (List.filter is_faderport names))))
      as [H1|H1]; [|discriminate].
    simpl in Hpick. split; [exact H0|].
    pose proof (proj2 (list_elem_of_lookup _ _) (ex_intro _ _ Hpick)) as Hin.
    apply list_elem_of_In, filter_In in Hin as [Hin Hfp].
    split; [apply list_elem_of_In; exact Hin|]. split; [exact Hfp | exact Hpick].
  - intros [Hneg | Hbig].
    + destruct (Z.leb_spec 0 number); [lia | reflexivity].
    + destruct (Z.ltb_spec number
                  (Z.of_nat (length (List.filter is_faderport names))));
        [lia|]. rewrite andb_false_r. reflexivity.
  - intros [H0 H1].
    rewrite (proj2 (Z.leb_le _ _) H0), (proj2 (Z.ltb_lt _ _) H1). simpl.
    apply lookup_lt_is_Some_2. lia.
Qed.

Lemma pick_port_spec_witness :
  pick_port ["Midi Through Port-0"; "PreSonus FP2 MIDI 1"] 0 =
    Some "PreSonus FP2 MIDI 1" /\
  pick_port ["Midi Through Port-0"; "PreSonus FP2 MIDI 1"] 1 = None /\
  pick_port ["Midi Through Port-0"; "PreSonus FP2 MIDI 1"] (-1) = None.
Proof.
  split; [reflexivity|].
  destruct (pick_port_spec ["Midi Through Port-0"; "PreSonus FP2 MIDI 1"] 1)
    as (_ & Hnone & _).
  destruct (pick_port_spec ["Midi Through Port-0"; "PreSonus FP2 MIDI 1"] (-1))
    as (_ & Hneg & _).
  split; [apply Hnone; right; vm_compute; discriminate | apply Hneg; left; lia].
Defined.

(** ** Cyclic cursors *)

Lemma next_in_range {A : Type} (it : cycle_iter A) :
  (position it < length (saved it))%nat ->
  exists x, saved it !! position it = Some x /\
            next it = Some (x, {| saved := saved it;
                                  position := (S (position it)
                                               mod length (saved it))%nat |}).
Proof.
  intros Hlt. destruct (lookup_lt_is_Some_2 _ _ Hlt) as [x Hx].
  exists x. split; [exact Hx|]. unfold next. rewrite Hx. reflexivity.
Qed.

(** X4. [consume] moves a cursor that is within its sequence forward by [n]
    places, wrapping at the end of the sequence; a cursor over an empty
    sequence stays as it is. *)
Theorem consume_position {A : Type} (it : cycle_iter A) (n : nat) :
  ((position it < length (saved it))%nat ->
     consume it n =
     {| saved := saved it;
        position := ((position it + n) mod length (saved it))%nat |}) /\
  (saved it = [] -> consume it n = it).
Proof.
  split.
  - revert it; induction n as [|n IH]; intros it Hlt.
    + simpl. rewrite Nat.add_0_r, Nat.mod_small by exact Hlt.
      destruct it; reflexivity.
    + destruct (next_in_range it Hlt) as (x & _ & Hnext).
      cbn [consume]. rewrite Hnext.
      rewrite IH by (cbn [position saved]; apply Nat.mod_upper_bound; lia).
      cbn [position saved]. f_equal.
      rewrite Nat.Div0.add_mod_idemp_l. f_equal. lia.
  - intros Hempty. destruct n as [|n]; [reflexivity|].
    cbn [consume]. unfold next. rewrite Hempty. reflexivity.
Qed.

Lemma consume_position_witness :
  consume {| saved := BUTTONS; position := 20 |} 10 =
    {| saved := BUTTONS; position := 4 |}.
Proof.
  destruct (consume_position {| saved := BUTTONS; position := 20 |} 10)
    as [Hmove _].
  apply Hmove. vm_compute. lia.
Defined.

(** ** Opening *)

(** X5. [open] in its three outcomes.  When the input port cannot be opened
    nothing has changed.  When the output port cannot be opened the input
    port is already stored, open and without a callback.  When both open,
    [on_open] runs last, after the pause and with the callback
    registered. *)
Theorem open_outcomes `{Backend} {U : Type} `{Hooks U}
    (number : Z) (s : FaderPort U) :
  (forall e,
      open_input (find_faderport_input_name number) = Raise e ->
      open number s = (Raise e, s)) /\
  (forall ip e,
      open_input (find_faderport_input_name number) = Ok ip ->
      open_output (find_faderport_output_name number) = Raise e ->
      open number s = (Raise e, set_inport (Some ip) s)) /\
  (forall ip op,
      open_input (find_faderport_input_name number) = Ok ip ->
      open_output (find_faderport_output_name number) = Ok op ->
      open number s =
      on_open
        (mkFaderPort
           (Some {| in_name := in_name ip;
                    callback := Some bound_message_callback;
                    in_closed := in_closed ip |})
           (Some op) (_fader s) (_msb s) (attrs s)
           (effects s ++ [Slept (1 # 100)]))).
Proof.
  split; [|split].
  - intros e Hin. unfold open. rewrite bind_run. unfold of_result.
    rewrite Hin. reflexivity.
  - intros ip e Hin Hout. unfold open. rewrite !bind_run. unfold of_result.
    rewrite Hin. cbn [modify]. rewrite !bind_run. rewrite Hout. reflexivity.
  - intros ip op Hin Hout. unfold open. rewrite !bind_run. unfold of_result.
    rewrite Hin. cbn [modify]. rewrite !bind_run. rewrite Hout.
    reflexivity.
Qed.

Lemma open_outcomes_witness :
  @open demo_backend _ TestFaderPort.hooks 0 TestFaderPort.init =
    (Ok tt, demo_opened) /\
  inport demo_opened =
    Some {| in_name := Some "PreSonus FP2 MIDI 1";
            callback := Some bound_message_callback; in_closed := false |}.
Proof.
  split; [|reflexivity].
  destruct (@open_outcomes demo_backend _ TestFaderPort.hooks 0
              TestFaderPort.init) as (_ & _ & Hok).
  rewrite (Hok {| in_name := Some "PreSonus FP2 MIDI 1"; callback := None;
                  in_closed := false |}
               {| out_name := Some "PreSonus FP2 MIDI 1"; out_closed := false |}
               eq_refl eq_refl).
  reflexivity.
Defined.

(** ** Before [open] *)

Section Unopened.
Context {U : Type} `{Hooks U}.
Implicit Types s : FaderPort U.

Lemma outport_send_unopened (msg : Message) s :
  outport s = None -> outport_send msg s = (Raise AttributeError, s).
Proof.
  intros Hp. unfold outport_send. rewrite bind_run. unfold gets.
  rewrite Hp. reflexivity.
Qed.

(** X6. On an object whose ports were never opened: a light command raises
    [AttributeError] and changes nothing; writing [fader] raises
    [AttributeError] too, but only after the clamped value is cached;
    and [close] raises [AttributeError] as soon as [on_close] has
    returned, with nothing torn down. *)
Theorem unopened_raises s :
  inport s = None -> outport s = None ->
  (forall b, light_on b s = (Raise AttributeError, s)) /\
  (forall b, light_off b s = (Raise AttributeError, s)) /\
  all_off s = (Raise AttributeError, s) /\
  all_on s = (Raise AttributeError, s) /\
  (forall v, fader_setter v s =
             (Raise AttributeError,
              set_fader (Z.max (-8192) (Z.min 8191 v)) s)) /\
  (forall s', on_close s = (Ok tt, s') -> inport s' = None ->
              close s = (Raise AttributeError, s')).
Proof.
  intros Hin Hout.
  split; [intros b; apply outport_send_unopened; exact Hout|].
  split; [intros b; apply outport_send_unopened; exact Hout|].
  split.
  { unfold all_off, BUTTONS. cbn [for_each].
    apply bind_raise. apply outport_send_unopened. exact Hout. }
  split.
  { unfold all_on, BUTTONS. cbn [for_each].
    apply bind_raise. apply outport_send_unopened. exact Hout. }
  split.
  - intros v. unfold fader_setter. rewrite clamp_as_min_max.
    rewrite !bind_run. cbn [modify gets].
    apply outport_send_unopened. exact Hout.
  - intros s' Hhook Hin'. unfold close.
    rewrite (bind_ok _ _ _ _ _ Hhook).
    apply bind_raise. unfold inport_set_callback. rewrite bind_run.
    unfold gets. rewrite Hin'. reflexivity.
Qed.

End Unopened.

Lemma unopened_raises_witness :
  fader_setter 9000 TestFaderPort.init =
    (Raise AttributeError, set_fader 8191 TestFaderPort.init) /\
  close TestFaderPort.init =
    (Raise AttributeError,
     extend TestFaderPort.init [Printed [PyStr "FaderPort closing..."]]).
Proof.
  destruct (unopened_raises TestFaderPort.init eq_refl eq_refl)
    as (_ & _ & _ & _ & Hset & Hclose).
  split; [exact (Hset 9000) | apply Hclose; reflexivity].
Defined.

(** ** The light methods touch nothing but the lights *)

Section OnlyLights.
Context {U : Type}.
Implicit Types s : FaderPort U.

Lemma only_lights_ret {A : Type} (a : A) : only_lights (mret a : M U A).
Proof.
  intros s. exists []. split; [symmetry; apply extend_nil | constructor].
Qed.

Lemma only_lights_raise {A : Type} (e : Exn) : only_lights (raise e : M U A).
Proof.
  intros s. exists []. split; [symmetry; apply extend_nil | constructor].
Qed.

Lemma only_lights_of_result {A : Type} (r : Result A) :
  only_lights (of_result r : M U A).
Proof.
  intros s. exists []. split; [symmetry; apply extend_nil | constructor].
Qed.

Lemma only_lights_bind {A B : Type} (m : M U A) (f : A -> M U B) :
  only_lights m -> (forall a, only_lights (f a)) -> only_lights (m ≫= f).
Proof.
  intros Hm Hf s. rewrite bind_run.
  destruct (Hm s) as (es & Hes & Hall).
  destruct (m s) as [[a|e] s1]; simpl in Hes; subst s1.
  - destruct (Hf a (extend s es)) as (es' & Hes' & Hall').
    exists (es ++ es'). rewrite Hes', extend_extend.
    split; [reflexivity | apply Forall_app; split; assumption].
  - exists es. split; [reflexivity | exact Hall].
Qed.

Lemma only_lights_for_each {A : Type} (l : list A) (body : A -> M U unit) :
  (forall x, only_lights (body x)) -> only_lights (for_each l body).
Proof.
  intros Hbody. induction l as [|x l IH]; simpl.
  - apply only_lights_ret.
  - apply only_lights_bind; [apply Hbody | intros _; exact IH].
Qed.

Lemma only_lights_send (n v : Z) :
  v = 0 \/ v = 127 -> only_lights (outport_send (note_on n v) : M U unit).
Proof.
  intros Hv s. unfold outport_send. rewrite bind_run. unfold gets.
  destruct (outport s) as [[nm []]|].
  - exists []. split; [symmetry; apply extend_nil | constructor].
  - exists [Sent (note_on n v)].
    split; [reflexivity | constructor; [exact Hv | constructor]].
  - exists []. split; [symmetry; apply extend_nil | constructor].
Qed.

Lemma only_lights_sleep (d : Q) : only_lights (sleep d : M U unit).
Proof.
  intros s. unfold sleep. destruct (Qle_bool 0 d).
  - exists [Slept d]. split; [reflexivity | constructor; [exact I | constructor]].
  - exists []. split; [symmetry; apply extend_nil | constructor].
Qed.

Lemma only_lights_light_on (b : Button) : only_lights (light_on b : M U unit).
Proof. apply only_lights_send. right; reflexivity. Qed.

Lemma only_lights_light_off (b : Button) : only_lights (light_off b : M U unit).
Proof. apply only_lights_send. left; reflexivity. Qed.

Lemma only_lights_all_off : only_lights (all_off : M U unit).
Proof. apply only_lights_for_each, only_lights_light_off. Qed.

Lemma only_lights_all_on : only_lights (all_on : M U unit).
Proof. apply only_lights_for_each, only_lights_light_on. Qed.

Lemma only_lights_char_on (c : string) : only_lights (char_on c : M U unit).
Proof.
  unfold char_on. destruct (dict_contains _ _); [|apply only_lights_ret].
  apply only_lights_bind; [apply only_lights_of_result|]. intros indices.
  apply only_lights_for_each. intros i.
  apply only_lights_bind; [apply only_lights_of_result|]. intros b.
  apply only_lights_light_on.
Qed.

Lemma only_lights_chase_tick (its : list (cycle_iter Button)) :
  only_lights (chase_tick its : M U _).
Proof.
  induction its as [|it rest IH]; cbn [chase_tick]; [apply only_lights_ret|].
  destruct (next it) as [[b it']|]; [|apply only_lights_raise].
  apply only_lights_bind; [apply only_lights_light_on|]. intros _.
  apply only_lights_bind; [exact IH|]. intros ?. apply only_lights_ret.
Qed.

Lemma only_lights_chase_loop (d : Q) (ticks : nat)
    (its : list (cycle_iter Button)) :
  only_lights (chase_loop d ticks its : M U unit).
Proof.
  revert its; induction ticks as [|ticks IH]; intros its; cbn [chase_loop];
    [apply only_lights_ret|].
  apply only_lights_bind; [apply only_lights_chase_tick|]. intros its'.
  apply only_lights_bind; [apply only_lights_sleep|]. intros _.
  apply only_lights_bind; [apply only_lights_all_off|]. intros _. apply IH.
Qed.

Context `{Backend} `{Hooks U}.

(** X7. [light_on], [light_off], [all_on], [all_off], [snake], [blink],
    [char_on], [countdown] and [chase], whatever their arguments and
    whether they return or raise, leave the ports, the callback, the
    cached fader and the subclass attributes as they were, and add to
    the log only note-on messages of velocity 0 or 127 and pauses:
    never a pitchwheel message, a reset or a print. *)
Theorem lighting_only_lights (c : Call) s :
  lighting c ->
  exists es, snd (perform c s) = extend s es /\ Forall light_effect es.
Proof.
  intros Hc. revert s. change (only_lights (perform c)).
  destruct c; try contradiction; cbn [perform].
  - apply only_lights_light_on.
  - apply only_lights_light_off.
  - apply only_lights_all_off.
  - apply only_lights_all_on.
  - unfold snake. apply only_lights_bind; [|intros _];
      apply only_lights_for_each; intros b;
      (apply only_lights_bind; [|intros _; apply only_lights_sleep]);
      [apply only_lights_light_on | apply only_lights_light_off].
  - unfold blink. apply only_lights_for_each. intros _.
    apply only_lights_bind; [apply only_lights_all_on|]. intros _.
    apply only_lights_bind; [apply only_lights_sleep|]. intros _.
    apply only_lights_bind; [apply only_lights_all_off|]. intros _.
    apply only_lights_sleep.
  - apply only_lights_char_on.
  - unfold countdown. apply only_lights_for_each. intros ch.
    apply only_lights_bind; [apply only_lights_char_on|]. intros _.
    apply only_lights_bind; [apply only_lights_sleep|]. intros _.
    apply only_lights_bind; [apply only_lights_all_off|]. intros _.
    apply only_lights_sleep.
  - unfold chase. apply only_lights_bind; [apply only_lights_of_result|].
    intros its. apply only_lights_chase_loop.
Qed.

End OnlyLights.

Lemma lighting_only_lights_witness :
  lighting (CallChase (1 # 10) 3 2) /\
  exists es,
    snd (@perform demo_backend _ TestFaderPort.hooks
           (CallChase (1 # 10) 3 2) demo_opened) = extend demo_opened es /\
    Forall light_effect es.
Proof.
  split; [exact I|].
  exact (@lighting_only_lights _ demo_backend TestFaderPort.hooks
           (CallChase (1 # 10) 3 2) demo_opened I).
Defined.

(** ** Reading the log *)

Lemma last_velocity_app (code : Z) (es es' : list Effect) :
  last_velocity code (es ++ es') =
  match last_velocity code es' with
  | Some v => Some v
  | None => last_velocity code es
  end.
Proof.
  unfold last_velocity. rewrite foldl_app.
  generalize (foldl (fun acc e =>
                       match e with
                       | Sent (note_on n v) => if n =? code then Some v else acc
                       | _ => acc
                       end) None es) as acc.
  induction es' as [|e es' IH]; intros acc; simpl.
  - destruct acc; reflexivity.
  - destruct e as [[p | n v | c v | t] | | d | args];
      try (rewrite (IH acc); reflexivity).
    destruct (n =? code); [|rewrite (IH acc); reflexivity].
    rewrite (IH (Some v)).
    destruct (foldl _ None es'); reflexivity.
Qed.

Lemma last_velocity_ends (code v : Z) (es es' : list Effect) :
  last_velocity code es' = Some v -> last_velocity code (es ++ es') = Some v.
Proof. intros E. rewrite last_velocity_app, E. reflexivity. Qed.

Lemma all_off_last_velocity :
  Forall (fun c => last_velocity (press c) (light_off_cmds BUTTONS) = Some 0)
         BUTTONS.
Proof. unfold BUTTONS at 2. repeat constructor. Qed.

Lemma sleeps_app (es es' : list Effect) :
  sleeps (es ++ es') = sleeps es ++ sleeps es'.
Proof. apply omap_app. Qed.

Lemma sleeps_light_on_cmds (bs : list Button) : sleeps (light_on_cmds bs) = [].
Proof. induction bs as [|b bs IH]; [reflexivity | exact IH]. Qed.

Lemma sleeps_light_off_cmds (bs : list Button) : sleeps (light_off_cmds bs) = [].
Proof. induction bs as [|b bs IH]; [reflexivity | exact IH]. Qed.

Lemma Qle_half (q : Q) : (0 <= q)%Q -> (0 <= q / 2)%Q.
Proof.
  intros Hq. apply Qle_shift_div_l; [reflexivity|].
  rewrite Qmult_0_l. exact Hq.
Qed.

Lemma sleep_negative {U : Type} (d : Q) (s : FaderPort U) :
  (d < 0)%Q -> sleep d s = (Raise ValueError, s).
Proof.
  intros Hd. unfold sleep.
  destruct (Qle_bool 0 d) eqn:E; [|reflexivity].
  apply Qle_bool_iff in E. destruct (Qlt_not_le _ _ Hd E).
Qed.

(** ** The animations *)

Section Animations.
Context {U : Type}.
Implicit Types s : FaderPort U.

(** A loop whose body, on an open port, returns after adding the
    effects [f x] adds them for every element in turn. *)
Lemma for_each_trace {A : Type} (f : A -> list Effect) (body : A -> M U unit)
    (l : list A) s :
  (forall x s, can_send s -> body x s = (Ok tt, extend s (f x))) ->
  can_send s ->
  for_each l body s = (Ok tt, extend s (concat (f <$> l))).
Proof.
  intros Hbody. revert s; induction l as [|x l IH]; intros s Hs; simpl.
  - rewrite extend_nil. reflexivity.
  - rewrite (bind_ok _ _ _ _ _ (Hbody x s Hs)).
    rewrite IH by (apply can_send_extend; exact Hs).
    rewrite extend_extend. reflexivity.
Qed.

Lemma Forall2_lookup_omap {A : Type} (l : list A) (indices : list nat)
    (xs : list A) :
  Forall2 (fun i x => l !! i = Some x) indices xs ->
  omap (fun i => l !! i) indices = xs.
Proof.
  induction 1 as [|i x indices xs Hi _ IH]; [reflexivity|].
  cbn [omap list_omap]. rewrite Hi, IH. reflexivity.
Qed.

(** On an open port [char_on] returns for every string, having lit the
    buttons of the glyph. *)
Lemma char_on_open (c : string) s :
  can_send s ->
  char_on c s = (Ok tt, extend s (light_on_cmds (glyph_buttons c))).
Proof.
  intros Hs. unfold glyph_buttons.
  destruct (CHARACTERS !! Str.upper c) as [indices|] eqn:Hc.
  - rewrite (char_on_known c indices s Hc).
    destruct (light_indices_open indices s (CHARACTERS_in_bounds _ _ Hc) Hs)
      as (bs & Hbs & Hrun).
    rewrite Hrun, (Forall2_lookup_omap _ _ _ Hbs). reflexivity.
  - rewrite (char_on_unknown c s Hc). cbn. rewrite extend_nil. reflexivity.
Qed.

(** X8. [snake] on an open port.  With a non-negative duration it lights
    the 26 buttons in order and turns them off in reverse order, pausing
    after each command: 52 pauses of [duration], and the last command to
    every button is light-off.  With a negative duration the first pause
    is refused: [ValueError], with the first button left lit. *)
Theorem snake_run (d : Q) s :
  can_send s ->
  ((0 <= d)%Q ->
     snake d s = (Ok tt, extend s (snake_effects d)) /\
     sleeps (snake_effects d) = replicate 52 d /\
     forall c, c ∈ BUTTONS -> last_velocity (press c) (snake_effects d) = Some 0) /\
  ((d < 0)%Q ->
     snake d s = (Raise ValueError, extend s [Sent (note_on 8 127)])).
Proof.
  intros Hs. split.
  - intros Hd. split; [|split].
    + unfold snake, snake_effects.
      erewrite bind_ok; [|apply (for_each_trace
        (fun b => [Sent (note_on (press b) 127); Slept d]));
        [|exact Hs]].
      * rewrite (for_each_trace
                   (fun b => [Sent (note_on (press b) 0); Slept d]));
          [rewrite extend_extend; reflexivity | | apply can_send_extend, Hs].
        intros b s1 Hs1. unfold light_off.
        rewrite (bind_ok _ _ _ _ _ (outport_send_open _ s1 Hs1)).
        rewrite (sleep_ok d _ Hd), extend_extend. reflexivity.
      * intros b s1 Hs1. unfold light_on.
        rewrite (bind_ok _ _ _ _ _ (outport_send_open _ s1 Hs1)).
        rewrite (sleep_ok d _ Hd), extend_extend. reflexivity.
    + reflexivity.
    + apply Forall_forall. unfold BUTTONS at 1. repeat constructor.
  - intros Hd. unfold snake, BUTTONS. cbn [for_each].
    apply bind_raise. apply bind_raise.
    unfold light_on. rewrite (bind_ok _ _ _ _ _ (outport_send_open _ s Hs)).
    apply sleep_negative. exact Hd.
Qed.

Lemma concat_replicate_end {A : Type} (k : nat) (x : list A) :
  concat (replicate (S k) x) = concat (replicate k x) ++ x.
Proof.
  induction k as [|k IH]; [simpl; rewrite app_nil_r; reflexivity|].
  simpl in *. rewrite IH at 1. rewrite app_assoc. reflexivity.
Qed.

Lemma fmap_const_seq {A : Type} (x : A) (a n : nat) :
  (fun _ => x) <$> seq a n = replicate n x.
Proof.
  revert a; induction n as [|n IH]; intros a; [reflexivity|].
  simpl. rewrite IH. reflexivity.
Qed.

Lemma blink_effects_last_velocity (interval : Q) :
  Forall (fun c => last_velocity (press c) (blink_effects interval) = Some 0)
         BUTTONS.
Proof. unfold BUTTONS at 1. repeat constructor. Qed.

(** X9. [blink] on an open port, with a non-negative interval: [n] rounds of
    all lights on, half the interval, all lights off, half the interval;
    after at least one round the last command to every button is
    light-off. *)
Theorem blink_run (interval : Q) (n : Z) s :
  can_send s -> (0 <= interval)%Q ->
  let es := concat (replicate (Z.to_nat n) (blink_effects interval)) in
  blink interval n s = (Ok tt, extend s es) /\
  (1 <= n -> forall c, c ∈ BUTTONS -> last_velocity (press c) es = Some 0).
Proof.
  intros Hs Hi es. split.
  - unfold blink. subst es. rewrite <- (fmap_const_seq _ 0).
    apply (for_each_trace (fun _ => blink_effects interval)); [|exact Hs].
    intros _ s1 Hs1. unfold blink_effects.
    rewrite (bind_ok _ _ _ _ _ (all_on_open s1 Hs1)).
    rewrite (bind_ok _ _ _ _ _ (sleep_ok _ _ (Qle_half _ Hi))).
    rewrite extend_extend.
    erewrite bind_ok by (apply all_off_open, can_send_extend, Hs1).
    rewrite extend_extend, (sleep_ok _ _ (Qle_half _ Hi)), extend_extend.
    rewrite <- !app_assoc. reflexivity.
  - intros Hn c Hc. subst es.
    destruct (Z.to_nat n) as [|k] eqn:Hk; [lia|].
    rewrite concat_replicate_end. apply last_velocity_ends.
    exact (proj1 (Forall_forall _ _) (blink_effects_last_velocity interval) c Hc).
Qed.

(** X10. [countdown] on an open port, with a non-negative interval: for each
    of the digits 9 down to 0, the glyph is lit, held for 0.66667 of the
    interval, every light is turned off, and 0.33333 of the interval
    passes; the last command to every button is light-off. *)
Theorem countdown_run (interval : Q) s :
  can_send s -> (0 <= interval)%Q ->
  let es := concat (countdown_effects interval <$>
                      ["9"; "8"; "7"; "6"; "5"; "4"; "3"; "2"; "1"; "0"]) in
  countdown interval s = (Ok tt, extend s es) /\
  forall c, c ∈ BUTTONS -> last_velocity (press c) es = Some 0.
Proof.
  intros Hs Hi es. split.
  - unfold countdown. subst es.
    apply (for_each_trace (countdown_effects interval)); [|exact Hs].
    intros c s1 Hs1. unfold countdown_effects.
    assert (H1 : (0 <= interval * (66667 # 100000))%Q)
      by (apply Qmult_le_0_compat; [exact Hi | discriminate]).
    assert (H2 : (0 <= interval * (33333 # 100000))%Q)
      by (apply Qmult_le_0_compat; [exact Hi | discriminate]).
    rewrite (bind_ok _ _ _ _ _ (char_on_open c s1 Hs1)).
    rewrite (bind_ok _ _ _ _ _ (sleep_ok _ _ H1)), extend_extend.
    erewrite bind_ok by (apply all_off_open, can_send_extend, Hs1).
    rewrite extend_extend, (sleep_ok _ _ H2), extend_extend.
    rewrite <- !app_assoc. reflexivity.
  - intros c Hc. subst es.
    change ["9"; "8"; "7"; "6"; "5"; "4"; "3"; "2"; "1"; "0"]
      with (["9"; "8"; "7"; "6"; "5"; "4"; "3"; "2"; "1"] ++ ["0"]).
    rewrite fmap_app, concat_app. apply last_velocity_ends.
    cbn [fmap list_fmap concat]. rewrite app_nil_r.
    unfold countdown_effects. rewrite !app_assoc.
    rewrite last_velocity_app. cbn [last_velocity foldl].
    rewrite <- app_assoc. apply last_velocity_ends.
    exact (proj1 (Forall_forall _ _) all_off_last_velocity c Hc).
Qed.

End Animations.

Section ChaseWhole.
Context {U : Type}.
Implicit Types s : FaderPort U.

Lemma sleeps_ticks (d : Q) (lits : list (list Button)) :
  sleeps (concat (tick_effects d <$> lits)) = replicate (length lits) d.
Proof.
  induction lits as [|lit lits IH]; [reflexivity|].
  cbn [fmap list_fmap concat length replicate].
  unfold tick_effects at 1.
  rewrite !sleeps_app, sleeps_light_on_cmds, sleeps_light_off_cmds, IH.
  reflexivity.
Qed.

Lemma last_velocity_ticks (d : Q) (lits : list (list Button)) (c : Button) :
  c ∈ BUTTONS -> lits <> [] ->
  last_velocity (press c) (concat (tick_effects d <$> lits)) = Some 0.
Proof.
  intros Hc. induction lits as [|lit lits IH]; intros Hne; [destruct Hne; reflexivity|].
  cbn [fmap list_fmap concat].
  destruct lits as [|lit' lits].
  - cbn [fmap list_fmap concat]. rewrite app_nil_r. unfold tick_effects.
    rewrite !app_assoc. apply last_velocity_ends.
    exact (proj1 (Forall_forall _ _) all_off_last_velocity c Hc).
  - apply last_velocity_ends. apply IH. discriminate.
Qed.

(** X11. [chase] on an open port, with a non-negative duration and any
    [num_lights]: it performs [ticks] ticks, each lighting as many
    buttons as there are cursors (two when [num_lights] is not 1 to 4),
    pausing for exactly [duration] and turning every light off; so it
    pauses [ticks] times, and after at least one tick the last command
    to every button is light-off. *)
Theorem chase_run (d : Q) (num_lights ticks : Z) s :
  can_send s -> (0 <= d)%Q ->
  exists lits : list (list Button),
    let es := concat (tick_effects d <$> lits) in
    length lits = Z.to_nat ticks /\
    Forall (fun lit => length lit = Z.to_nat (chase_num_lights num_lights)) lits /\
    chase d num_lights ticks s = (Ok tt, extend s es) /\
    sleeps es = replicate (Z.to_nat ticks) d /\
    (1 <= ticks -> forall c, c ∈ BUTTONS -> last_velocity (press c) es = Some 0).
Proof.
  intros Hs Hd. unfold chase, chase_setup.
  rewrite chase_seq_value, bind_run. unfold of_result.
  set (its := chase_its _ _).
  assert (Hknown : forallb (steady (Z.to_nat (chase_num_lights num_lights))
                              (orbit 12 its)) (orbit 12 its) = true).
  { subst its. rewrite chase_num_lights_cases.
    destruct (decide (1 <= num_lights <= 4)) as [Hin | Hout].
    - rewrite (bool_decide_eq_true_2 _ Hin).
      assert (num_lights = 1 \/ num_lights = 2 \/ num_lights = 3 \/
              num_lights = 4) as Hcases by lia.
      destruct Hcases as [E | [E | [E | E] ] ]; rewrite E;
        vm_compute; reflexivity.
    - rewrite (bool_decide_eq_false_2 _ Hout). vm_compute. reflexivity. }
  assert (Hhere : its ∈ orbit 12 its) by left.
  destruct (chase_loop_steady _ _ d (Z.to_nat ticks) Hknown Hd its s Hhere Hs)
    as (lits & Hlen & Hrun & Hall).
  exists lits. cbn zeta. split; [exact Hlen|]. split.
  { eapply Forall_impl; [exact Hall|]. intros lit [Hl _]. exact Hl. }
  split; [exact Hrun|]. split.
  - rewrite sleeps_ticks, Hlen. reflexivity.
  - intros Ht c Hc. apply last_velocity_ticks; [exact Hc|].
    intros ->. simpl in Hlen. lia.
Qed.

(** X12. With nothing to do, [blink] and [chase] return at once and leave
    everything as it was, on any object: no port is needed and the
    duration is not looked at. *)
Theorem zero_rounds_do_nothing s :
  (forall interval n, n <= 0 -> blink interval n s = (Ok tt, s)) /\
  (forall d num_lights ticks,
      ticks <= 0 -> chase d num_lights ticks s = (Ok tt, s)).
Proof.
  split.
  - intros interval n Hn. unfold blink.
    replace (Z.to_nat n) with 0%nat by lia. reflexivity.
  - intros d num_lights ticks Ht. unfold chase, chase_setup.
    rewrite chase_seq_value, bind_run. unfold of_result.
    replace (Z.to_nat ticks) with 0%nat by lia. reflexivity.
Qed.

End ChaseWhole.

Lemma snake_run_witness :
  can_send demo_opened /\ (0 <= 3 # 100)%Q /\
  snake (3 # 100) demo_opened =
    (Ok tt, extend demo_opened (snake_effects (3 # 100))).
Proof.
  assert (Hd : (0 <= 3 # 100)%Q) by discriminate.
  split; [exact demo_opened_can_send|]. split; [exact Hd|].
  destruct (snake_run (3 # 100) demo_opened demo_opened_can_send) as [Hok _].
  exact (proj1 (Hok Hd)).
Defined.

Lemma blink_run_witness :
  can_send demo_opened /\ (0 <= 2 # 10)%Q /\
  blink (2 # 10) 3 demo_opened =
    (Ok tt, extend demo_opened (concat (replicate 3 (blink_effects (2 # 10))))).
Proof.
  assert (Hi : (0 <= 2 # 10)%Q) by discriminate.
  split; [exact demo_opened_can_send|]. split; [exact Hi|].
  destruct (blink_run (2 # 10) 3 demo_opened demo_opened_can_send Hi)
    as [Hrun _].
  exact Hrun.
Defined.

Lemma countdown_run_witness :
  can_send demo_opened /\ (0 <= 1 # 2)%Q /\
  forall c, c ∈ BUTTONS ->
    last_velocity (press c)
      (concat (countdown_effects (1 # 2) <$>
                 ["9"; "8"; "7"; "6"; "5"; "4"; "3"; "2"; "1"; "0"])) = Some 0.
Proof.
  assert (Hi : (0 <= 1 # 2)%Q) by discriminate.
  split; [exact demo_opened_can_send|]. split; [exact Hi|].
  destruct (countdown_run (1 # 2) demo_opened demo_opened_can_send Hi)
    as [_ Hdark].
  exact Hdark.
Defined.

Lemma chase_run_witness :
  can_send demo_opened /\ (0 <= 8 # 100)%Q /\
  exists lits : list (list Button),
    length lits = 20%nat /\
    chase (8 # 100) 7 20 demo_opened =
      (Ok tt, extend demo_opened (concat (tick_effects (8 # 100) <$> lits))) /\
    Forall (fun lit => length lit = 2%nat) lits.
Proof.
  assert (Hd : (0 <= 8 # 100)%Q) by discriminate.
  split; [exact demo_opened_can_send|]. split; [exact Hd|].
  destruct (chase_run (8 # 100) 7 20 demo_opened demo_opened_can_send Hd)
    as (lits & Hlen & Hall & Hrun & _).
  exists lits. split; [exact Hlen|]. split; [exact Hrun | exact Hall].
Defined.

Lemma zero_rounds_do_nothing_witness :
  blink (2 # 10) 0 TestFaderPort.init = (Ok tt, TestFaderPort.init) /\
  chase (-1 # 10) 3 (-5) TestFaderPort.init = (Ok tt, TestFaderPort.init).
Proof.
  destruct (zero_rounds_do_nothing TestFaderPort.init) as [Hblink Hchase].
  split; [apply Hblink; lia | apply Hchase; lia].
Defined.

(** ** [TestFaderPort] *)

Lemma fader_setter_open {U : Type} (v : Z) (s : FaderPort U) :
  can_send s ->
  fader_setter v s =
    (Ok tt, extend (set_fader (Z.max (-8192) (Z.min 8191 v)) s)
              [Sent (pitchwheel (Z.max (-8192) (Z.min 8191 v)))]).
Proof.
  intros Hs. unfold fader_setter. rewrite !bind_run. unfold modify, gets.
  rewrite clamp_as_min_max.
  apply (outport_send_open _ (set_fader _ s)). exact Hs.
Qed.

Section TestEvents.
Implicit Types s : FaderPort TestAttrs.

(** X13. An inbound fader position is cached as it comes, without clamping,
    and reported with one printed line; [fader] then reads that value. *)
Theorem test_fader_inbound (p : Z) s :
  _message_callback (pitchwheel p) s =
    (Ok tt, extend (set_fader p s) [Printed [PyStr "Fader:"; PyInt p]]) /\
  fst (fader (snd (_message_callback (pitchwheel p) s))) = Ok p.
Proof. split; reflexivity. Qed.

(** X14. The rotary with Shift held moves the fader by 320 per message,
    down for values above 64 and up otherwise, through the clamping
    setter; without Shift it only prints. *)
Theorem test_rotary_moves_fader (value : Z) s :
  can_send s ->
  let direction := if 64 <? value then -1 else 1 in
  let line := PyStr ("Pan turned " +:+
                     (if 64 <? value then "anti-clockwise" else "clockwise")
                     +:+ ".") in
  (_shift (attrs s) = true ->
     let target := Z.max (-8192) (Z.min 8191 (_fader s + direction * 320)) in
     _message_callback (control_change 16 value) s =
       (Ok tt, extend (set_fader target s)
                 [Printed [line]; Sent (pitchwheel target)])) /\
  (_shift (attrs s) = false ->
     _message_callback (control_change 16 value) s =
       (Ok tt, extend s [Printed [line]])).
Proof.
  intros Hs direction line.
  assert (Hline : forall s1 : FaderPort TestAttrs,
             print [PyStr ("Pan turned " +:+
                           (if 0 <? direction then "clockwise"
                            else "anti-clockwise") +:+ ".")] s1 =
             (Ok tt, extend s1 [Printed [line]])).
  { intros s1. subst direction line. destruct (64 <? value); reflexivity. }
  cbn [_message_callback Z.eqb Pos.eqb on_rotary TestFaderPort.hooks].
  fold direction. unfold TestFaderPort.test_on_rotary.
  rewrite (bind_ok _ _ _ _ _ (Hline s)).
  unfold TestFaderPort.shift. rewrite bind_run. cbn [gets extend attrs].
  split; intros Hshift; rewrite Hshift.
  - set (target := Z.max (-8192) (Z.min 8191 (_fader s + direction * 320))).
    rewrite bind_run. unfold fader. cbn [gets extend _fader].
    rewrite (fader_setter_open (_fader s + direction * 32 * 10)
               (extend s [Printed [line]]) (can_send_extend _ _ Hs)).
    replace (_fader s + direction * 32 * 10) with (_fader s + direction * 320)
      by lia.
    fold target. unfold extend, set_fader. cbn. rewrite <- app_assoc.
    reflexivity.
  - reflexivity.
Qed.

(** X15. Each Shift message flips [_shift], press and release alike, so a
    press followed by its release leaves it as it was; releasing Mute
    asks the demonstration loop to exit, pressing it does not. *)
Theorem test_button_flags s :
  let pressed := snd (_message_callback (note_on 70 127) s) in
  let released := snd (_message_callback (note_on 70 0) pressed) in
  _shift (attrs pressed) = negb (_shift (attrs s)) /\
  _shift (attrs released) = _shift (attrs s) /\
  should_exit (attrs (snd (_message_callback (note_on 16 0) s))) = true /\
  should_exit (attrs (snd (_message_callback (note_on 16 127) s))) =
    should_exit (attrs s).
Proof.
  destruct s as [ip [[nm []]|] f m [sh [] ex] es]; destruct sh;
    repeat split; reflexivity.
Qed.

End TestEvents.

Lemma test_rotary_moves_fader_witness :
  let s := set_attrs {| _shift := true; cycling := false;
                        should_exit := false |} demo_opened in
  can_send s /\ _shift (attrs s) = true /\
  _fader (snd (_message_callback (control_change 16 1) s)) = -7872.
Proof.
  intros s.
  assert (Hs : can_send s) by (eexists; split; vm_compute; reflexivity).
  split; [exact Hs|]. split; [reflexivity|].
  destruct (test_rotary_moves_fader 1 s Hs) as [Hheld _].
  rewrite (Hheld eq_refl). reflexivity.
Defined.

(** ** [char_on] on other inputs *)

Lemma upper_char_idem (c : ascii) :
  Str.upper_char (Str.upper_char c) = Str.upper_char c.
Proof. destruct c as [[] [] [] [] [] [] [] []]; reflexivity. Qed.

Lemma upper_idem (s : string) : Str.upper (Str.upper s) = Str.upper s.
Proof.
  induction s as [|c r IH]; [reflexivity|].
  simpl. rewrite upper_char_idem, IH. reflexivity.
Qed.

Lemma upper_lower (s : string) : Str.upper (Str.lower s) = Str.upper s.
Proof.
  induction s as [|c r IH]; [reflexivity|].
  simpl. rewrite upper_lower_char, IH. reflexivity.
Qed.

Lemma upper_length (s : string) : String.length (Str.upper s) = String.length s.
Proof. induction s as [|c r IH]; [reflexivity | simpl; rewrite IH; reflexivity]. Qed.

Lemma CHARACTERS_keys_single :
  map_Forall (fun k _ => String.length k = 1%nat) CHARACTERS.
Proof. apply (bool_decide_unpack _). vm_compute. exact I. Qed.

(** X16. [char_on] looks at its argument only through [upper()]: a string
    and its upper- and lowercase forms light the same buttons.  A string
    that is not one character long, the empty string included, has no
    glyph: nothing is sent and nothing fails, whatever the ports. *)
Theorem char_on_other_inputs {U : Type} (c : string) (s : FaderPort U) :
  char_on (Str.upper c) s = char_on c s /\
  char_on (Str.lower c) s = char_on c s /\
  (String.length c <> 1%nat -> char_on c s = (Ok tt, s)).
Proof.
  split; [|split].
  - unfold char_on. rewrite upper_idem. reflexivity.
  - unfold char_on. rewrite upper_lower. reflexivity.
  - intros Hlen. apply char_on_unknown.
    destruct (CHARACTERS !! Str.upper c) as [indices|] eqn:Hc; [|reflexivity].
    pose proof (CHARACTERS_keys_single _ _ Hc) as Hk. cbn beta in Hk.
    rewrite upper_length in Hk. destruct (Hlen Hk).
Qed.

Lemma char_on_other_inputs_witness :
  char_on "1F" demo_opened = (Ok tt, demo_opened) /\
  char_on "" TestFaderPort.init = (Ok tt, TestFaderPort.init).
Proof.
  destruct (char_on_other_inputs "1F" demo_opened) as (_ & _ & Hlong).
  destruct (char_on_other_inputs "" TestFaderPort.init) as (_ & _ & Hempty).
  split; [apply Hlong | apply Hempty]; discriminate.
Defined.
